(** * ProjectDash: the loader, the dropdowns and the [update_graph] callback
      of the airline-route dashboard

    A shallow embedding of [src/ProjectDash.py].  The module-level table
    [df] is the state; the Dash callback [update_graph] reads it, adds the
    derived [route] column to it, and returns a figure or raises.

    Modelling choices, all taken from the source:
    - a row carries the columns the callback reads; the cells read from
      the file ([Year], [city1], [city2], [airport_1], [passengers]) hold
      a value, the four coordinate cells, which the loader derives, may be
      missing (NaN);
    - [groupby] drops the rows whose key holds a missing cell and sorts
      the groups by key; coordinates are only compared and copied, so
      their type is a parameter with decidable equality and an order
      [coord_leb];
    - [Year], [passengers] and the counts are integers; a column sum is an
      int64 sum and wraps around;
    - [sizeref] is computed in double precision: the floating-point
      operations it uses are the parameters of [FloatOps];
    - [read_csv] gives a coordinate column whose cells all read as
      numbers a numeric type, on which [.str] raises; which texts read as
      numbers, and what [pd.to_numeric] makes of a text, are parameters
      of the loader;
    - the static layout of the figure ([update_layout]) is a constant and
      is left out of [Figure]. *)

From Stdlib Require Import ZArith QArith Ascii DecimalString.
From stdpp Require Import gmap strings list sorting.

Local Open Scope Z_scope.

(** ** Python exceptions and the error monad *)

(** The exceptions the program can raise, with the key or the message
    they carry (messages as CPython 3.11 and pandas 2 word them). *)
Inductive PyError :=
  | KeyError (key : string)
  | ValueError (msg : string)
  | AttributeError (msg : string).

Definition Result (A : Type) : Type := PyError + A.

Definition raise {A} (e : PyError) : Result A := inl e.

#[global] Instance result_ret : MRet Result := λ A a, inr a.

#[global] Instance result_bind : MBind Result := λ A B f m,
  match m with
  | inl e => inl e
  | inr a => f a
  end.

Definition ret {A} (a : A) : Result A := mret a.

(** A list comprehension or loop whose body may raise: the first exception
    wins. *)
Fixpoint for_each {A B} (f : A → Result B) (l : list A) : Result (list B) :=
  match l with
  | [] => ret []
  | a :: l' => b ← f a ; bs ← for_each f l' ; ret (b :: bs)
  end.

(** ** Generic table operations (pandas) *)

(** [Series.unique()]: distinct values in order of first appearance. *)
Fixpoint unique {A} `{!EqDecision A} (l : list A) : list A :=
  match l with
  | [] => []
  | x :: l' => x :: filter (λ y, y ≠ x) (unique l')
  end.

(** Sum of a list of integers. *)
Definition sum_Z (l : list Z) : Z := foldr Z.add 0 l.

(** An int64 result: the integer taken modulo 2^64 into [-2^63, 2^63). *)
Definition wrap64 (z : Z) : Z := (z + 2 ^ 63) `mod` 2 ^ 64 - 2 ^ 63.

(** The [sum] of an int64 column. *)
Definition int64_sum (l : list Z) : Z := wrap64 (sum_Z l).

(** The [first] of a column of a group: its first cell that is not
    missing, a missing cell when there is none. *)
Fixpoint first_valid {A} (l : list (option A)) : option A :=
  match l with
  | [] => None
  | Some a :: _ => Some a
  | None :: l' => first_valid l'
  end.

(** [groupby] with the default [dropna=True] first drops the rows whose
    key holds a missing cell; the rows kept are paired with their key. *)
Definition dropna {A K} (key : A → option K) (l : list A) : list (K * A) :=
  omap (λ a, (λ k, (k, a)) <$> key a) l.

(** [groupby(keys)] with the default [sort=True]: one group per distinct
    key, groups in sorted key order, rows inside a group in table order. *)
Definition group_keys {A K} `{!EqDecision K} (leb : K → K → bool)
    (key : A → K) (l : list A) : list K :=
  merge_sort (λ a b, leb a b) (unique (key <$> l)).

Definition groupby {A K} `{!EqDecision K} (leb : K → K → bool)
    (key : A → K) (l : list A) : list (K * list A) :=
  (λ k, (k, filter (λ a, key a = k) l)) <$> group_keys leb key l.

(** Lexicographic order on pairs, as Python and pandas order tuples. *)
Definition lex_leb {A B} `{!EqDecision A} (lebA : A → A → bool)
    (lebB : B → B → bool) (p q : A * B) : bool :=
  if decide (p.1 = q.1) then lebB p.2 q.2 else lebA p.1 q.1.

(** [Series.value_counts().reset_index()]: one (value, count) row per
    distinct value.  pandas orders the rows by descending count; the only
    use of this table is a join on the value, which does not see the order. *)
Definition value_counts {A} `{!EqDecision A} (l : list A) : list (A * Z) :=
  (λ x, (x, Z.of_nat (length (filter (λ y, y = x) l)))) <$> unique l.

(** builtin [max] over a column: raises on an empty one. *)
Definition py_max (l : list Z) : Result Z :=
  match l with
  | [] => raise (ValueError "max() arg is an empty sequence")
  | x :: l' => ret (foldl Z.max x l')
  end.

(** [str] of an integer. *)
Definition str (z : Z) : string := NilZero.string_of_int (Z.to_int z).

(** [px.colors.qualitative.Plotly] *)
Definition color_scale : list string :=
  ["#636EFA"; "#EF553B"; "#00CC96"; "#AB63FA"; "#FFA15A";
   "#19D3F3"; "#FF6692"; "#B6E880"; "#FF97FF"; "#FECB52"].

(** [{city: color_scale[i % len(color_scale)] for i, city in
    enumerate(unique_cities)}]: entries are inserted left to right, a later
    entry for the same key replaces the earlier one. *)
Definition city_colors (unique_cities : list string) : gmap string string :=
  foldl (λ m ic, <[ic.2 := color_scale !!! (ic.1 `mod` length color_scale)%nat]> m)
        ∅ (imap pair unique_cities).

(** [d[k]] on a dict. *)
Definition getitem (d : gmap string string) (k : string) : Result string :=
  match d !! k with
  | Some v => ret v
  | None => raise (KeyError k)
  end.

(** [tuple(sorted([a, b]))] on two strings. *)
Definition sorted_pair (a b : string) : string * string :=
  if String.ltb b a then (b, a) else (a, b).

(** The double-precision operations of line 120: the conversion of an
    integer, product, quotient and power. *)
Class FloatOps (F : Type) := {
  float_of_int : Z → F;
  fmul : F → F → F;
  fdiv : F → F → F;
  fpow : F → F → F;
}.

(** [2.*m/(15.**2)] *)
Definition sizeref_of `{!FloatOps F} (m : Z) : F :=
  fdiv (fmul (float_of_int 2) (float_of_int m))
       (fpow (float_of_int 15) (float_of_int 2)).

Section Dashboard.
Context {coord F : Type} `{!EqDecision coord, !FloatOps F}.
Variable coord_leb : coord → coord → bool.

(** ** Data model *)

(** A row of [df] with the columns the callback reads.  A coordinate
    cell is [None] when it is missing (NaN): the loader leaves it so for
    a coordinate string of one piece or with an empty piece. *)
Record Row := mkRow {
  Year : Z;
  city1 : string;
  city2 : string;
  airport_1 : string;
  passengers : Z;
  start_lat : option coord;
  start_lon : option coord;
  end_lat : option coord;
  end_lon : option coord;
}.

(** The global [df]: the loaded rows and the [route] column, which is
    absent until [update_graph] assigns it. *)
Record DataFrame := mkDF {
  rows : list Row;
  route : option (list (string * string));
}.

(** A row of [route_counts]. *)
Record RouteCount := mkRouteCount {
  rc_route : string * string;
  rc_start_lat : coord;
  rc_start_lon : coord;
  rc_airport_1 : string;
  rc_flight_count : Z;
}.

(** A row of [df_aggregated] after the [groupby(...).agg(...)]: the key
    cells are present, an aggregated destination cell is missing when its
    whole group misses it. *)
Record AggRow := mkAggRow {
  agg_city1 : string;
  agg_start_lat : coord;
  agg_start_lon : coord;
  agg_passengers : Z;
  agg_airport_1 : string;
  agg_end_lat : option coord;
  agg_end_lon : option coord;
}.

(** A row of [df_aggregated] after the merge and the [hover_text]
    column: the Aggregated City Summary.  A left join leaves the joined
    cell empty when the key has no match. *)
Record Summary := mkSummary {
  agg : AggRow;
  flight_count : option Z;
  hover_text : string;
}.

(** The marker trace: [lon], [lat] and [text] of the points, and the
    [size], [sizeref] and [color] entries of [marker]. *)
Record MarkerTrace := mkMarkerTrace {
  lon : list coord;
  lat : list coord;
  text : list string;
  marker_size : list Z;
  marker_sizeref : F;
  marker_color : list string;
}.

(** A line trace.  In [lon] and [lat], [None] is a missing cell of the
    row as well as the [None] that ends the path. *)
Record LineTrace := mkLineTrace {
  line_lon : list (option coord);
  line_lat : list (option coord);
  line_width : Z;
  line_color : string;
  opacity : Q;
}.

Inductive Trace :=
  | Markers (m : MarkerTrace)
  | Lines (l : LineTrace).

(** [fig.data], in the order of the [add_trace] calls. *)
Record Figure := mkFigure { data : list Trace }.

Definition marker_traces (fig : Figure) : list MarkerTrace :=
  omap (λ t, match t with Markers m => Some m | Lines _ => None end) (data fig).

Definition line_traces (fig : Figure) : list LineTrace :=
  omap (λ t, match t with Lines l => Some l | Markers _ => None end) (data fig).

(** ** The steps of [update_graph] *)

Definition route_of (r : Row) : string * string :=
  sorted_pair (city1 r) (city2 r).

(** [df['route'] = df.apply(lambda row: tuple(sorted(...)), axis=1)] *)
Definition assign_route (df : DataFrame) : DataFrame :=
  {| rows := rows df; route := Some (route_of <$> rows df) |}.

(** The key of a row in the [groupby] of line 64, when none of its cells
    is missing. *)
Definition route_key (p : (string * string) * Row)
    : option ((string * string) * coord * coord * string) :=
  la ← start_lat p.2; lo ← start_lon p.2; Some (p.1, la, lo, airport_1 p.2).

Definition route_key_leb
    : (string * string) * coord * coord * string →
      (string * string) * coord * coord * string → bool :=
  lex_leb (lex_leb (lex_leb (lex_leb String.leb String.leb) coord_leb) coord_leb)
          String.leb.

(** [df.groupby(['route','start_lat','start_lon','airport_1']).size()
      .reset_index(name='flight_count')] on given columns. *)
Definition route_counts_of (routes : list (string * string)) (rs : list Row)
    : list RouteCount :=
  (λ g, let '(rt, la, lo, ap) := g.1 in
        {| rc_route := rt; rc_start_lat := la; rc_start_lon := lo;
           rc_airport_1 := ap; rc_flight_count := Z.of_nat (length g.2) |})
  <$> groupby route_key_leb fst (dropna route_key (zip routes rs)).

Definition route_counts (df : DataFrame) : Result (list RouteCount) :=
  match route df with
  | None => raise (KeyError "route")
  | Some routes => ret (route_counts_of routes (rows df))
  end.

(** [if sel is None or len(sel) == 0: sel = df[col].unique()] *)
Definition resolve {A} (sel : option (list A)) (all : list A) : list A :=
  match sel with
  | None => all
  | Some l => if decide (length l = 0%nat) then all else l
  end.

Definition years_of (year_selected : option (list Z)) (df : DataFrame) : list Z :=
  resolve year_selected (unique (Year <$> rows df)).

Definition cities_of (source_city_selected : option (list string)) (df : DataFrame)
    : list string :=
  resolve source_city_selected (unique (city1 <$> rows df)).

(** The filter predicate on resolved selections. *)
Definition selected (ys : list Z) (cs : list string) (r : Row) : Prop :=
  Year r ∈ ys ∧ city1 r ∈ cs.

#[global] Instance selected_dec ys cs r : Decision (selected ys cs r).
Proof. unfold selected. apply _. Defined.

(** [df[df['Year'].isin(year_selected) & df['city1'].isin(source_city_selected)]] *)
Definition df_year (year_selected : option (list Z))
    (source_city_selected : option (list string)) (df : DataFrame) : list Row :=
  filter (selected (years_of year_selected df) (cities_of source_city_selected df))
         (rows df).

(** The key of a row in the [groupby] of line 77, when none of its cells
    is missing. *)
Definition city_key (r : Row) : option (string * coord * coord) :=
  la ← start_lat r; lo ← start_lon r; Some (city1 r, la, lo).

Definition city_key_leb : string * coord * coord → string * coord * coord → bool :=
  lex_leb (lex_leb String.leb coord_leb) coord_leb.

(** The [agg] of one group: passengers summed, the other columns by
    [first].  The airport cell of every row is present, so its first
    valid cell is that of the first row of the group. *)
Definition agg_group (g : (string * coord * coord) * list ((string * coord * coord) * Row))
    : option AggRow :=
  match g.2 with
  | [] => None
  | p :: _ =>
      let '(c, la, lo) := g.1 in
      Some {| agg_city1 := c; agg_start_lat := la; agg_start_lon := lo;
              agg_passengers := int64_sum ((λ q, passengers q.2) <$> g.2);
              agg_airport_1 := airport_1 p.2;
              agg_end_lat := first_valid ((λ q, end_lat q.2) <$> g.2);
              agg_end_lon := first_valid ((λ q, end_lon q.2) <$> g.2) |}
  end.

(** [df_year.groupby(['city1','start_lat','start_lon']).agg({...}).reset_index()] *)
Definition aggregate (dfy : list Row) : list AggRow :=
  omap agg_group (groupby city_key_leb fst (dropna city_key dfy)).

(** [df_aggregated.merge(flight_count, on='city1', how='left')]: one
    output row per matching right row, or one with an empty cell. *)
Definition merge_left (l : list AggRow) (fc : list (string * Z))
    : list (AggRow * option Z) :=
  a ← l;
  match filter (λ p, p.1 = agg_city1 a) fc with
  | [] => [(a, None)]
  | ms => (λ p, (a, Some p.2)) <$> ms
  end.

Definition str_count (c : option Z) : string :=
  match c with
  | Some n => str n
  | None => "nan"
  end.

Definition hover (a : AggRow) (c : option Z) : string :=
  "City: " +:+ agg_city1 a +:+ "<br>" +:+
  "Total Flights: " +:+ str_count c +:+ "<br>" +:+
  "Passengers: " +:+ str (agg_passengers a) +:+ "<br>" +:+
  "Airport: " +:+ agg_airport_1 a.

(** [df_aggregated] as the figure builder sees it. *)
Definition df_aggregated (dfy : list Row) : list Summary :=
  (λ ac, {| agg := ac.1; flight_count := ac.2; hover_text := hover ac.1 ac.2 |})
  <$> merge_left (aggregate dfy) (value_counts (city1 <$> dfy)).

Definition summary_city (s : Summary) : string := agg_city1 (agg s).

Definition unique_cities (dfa : list Summary) : list string :=
  unique (summary_city <$> dfa).

Definition line_trace (colors : gmap string string) (r : Row) : Result LineTrace :=
  c ← getitem colors (city1 r) ;
  ret {| line_lon := [start_lon r; end_lon r; None];
         line_lat := [start_lat r; end_lat r; None];
         line_width := 1;
         line_color := c;
         opacity := (1 # 2)%Q |}.

Definition marker_trace (rc : list RouteCount) (dfa : list Summary)
    (colors : gmap string string) : Result MarkerTrace :=
  m ← py_max (rc_flight_count <$> rc) ;
  cols ← for_each (getitem colors) (summary_city <$> dfa) ;
  ret {| lon := (λ s, agg_start_lon (agg s)) <$> dfa;
         lat := (λ s, agg_start_lat (agg s)) <$> dfa;
         text := hover_text <$> dfa;
         marker_size := rc_flight_count <$> rc;
         marker_sizeref := sizeref_of m;
         marker_color := cols |}.

(** The body of [update_graph] after the [route] assignment. *)
Definition build_figure (df : DataFrame) (year_selected : option (list Z))
    (source_city_selected : option (list string)) : Result Figure :=
  rc ← route_counts df ;
  let dfy := df_year year_selected source_city_selected df in
  let dfa := df_aggregated dfy in
  let colors := city_colors (unique_cities dfa) in
  m ← marker_trace rc dfa colors ;
  ls ← for_each (line_trace colors) dfy ;
  ret {| data := Markers m :: (Lines <$> ls) |}.

(** [update_graph]: the table after the call, and the figure or the
    exception. *)
Definition update_graph (df : DataFrame) (year_selected : option (list Z))
    (source_city_selected : option (list string)) : DataFrame * Result Figure :=
  let df' := assign_route df in
  (df', build_figure df' year_selected source_city_selected).

(** ** Views of the tables used to state the properties *)

(** A row with both origin coordinates: the rows [groupby] keeps. *)
Definition has_origin (r : Row) : Prop :=
  is_Some (start_lat r) ∧ is_Some (start_lon r).

#[global] Instance has_origin_dec r : Decision (has_origin r).
Proof. unfold has_origin. apply _. Defined.

(** The group-by columns of an aggregated row. *)
Definition agg_key (a : AggRow) : string * coord * coord :=
  (agg_city1 a, agg_start_lat a, agg_start_lon a).

(** The rows of the group with key [k]. *)
Definition city_group (dfy : list Row) (k : string * coord * coord) : list Row :=
  filter (λ r, city_key r = Some k) dfy.

(** The aggregated row of the group with key [k] and first row [r]. *)
Definition agg_of (dfy : list Row) (k : string * coord * coord)
    (r : Row) : AggRow :=
  {| agg_city1 := k.1.1; agg_start_lat := k.1.2; agg_start_lon := k.2;
     agg_passengers := int64_sum (passengers <$> city_group dfy k);
     agg_airport_1 := airport_1 r;
     agg_end_lat := first_valid (end_lat <$> city_group dfy k);
     agg_end_lon := first_valid (end_lon <$> city_group dfy k) |}.

(** The number of filtered rows of a city. *)
Definition city_rows (dfy : list Row) (c : string) : Z :=
  Z.of_nat (length (filter (λ y, y = c) (city1 <$> dfy))).

(** The summary row built from an aggregated row. *)
Definition summary_of (dfy : list Row) (a : AggRow) : Summary :=
  {| agg := a; flight_count := Some (city_rows dfy (agg_city1 a));
     hover_text := hover a (Some (city_rows dfy (agg_city1 a))) |}.

(** The group-by columns of a row of [route_counts]. *)
Definition rc_key (rc : RouteCount)
    : (string * string) * coord * coord * string :=
  (rc_route rc, rc_start_lat rc, rc_start_lon rc, rc_airport_1 rc).

(** The Aggregated City Summary of a selection. *)
Definition summary_table (df : DataFrame) (year_selected : option (list Z))
    (source_city_selected : option (list string)) : list Summary :=
  df_aggregated (df_year year_selected source_city_selected df).

(** The colour dictionary of a selection. *)
Definition color_dict (df : DataFrame) (year_selected : option (list Z))
    (source_city_selected : option (list string)) : gmap string string :=
  city_colors (unique_cities (summary_table df year_selected source_city_selected)).

(** [route_counts] once the [route] column is assigned. *)
Definition assigned_route_counts (df : DataFrame) : list RouteCount :=
  route_counts_of (route_of <$> rows df) (rows df).

(** The marker trace of a call whose [route_counts] has a row. *)
Definition marker_of (df : DataFrame) (year_selected : option (list Z))
    (source_city_selected : option (list string)) (M : Z) (cols : list string)
    : MarkerTrace :=
  {| lon := (λ s, agg_start_lon (agg s))
            <$> summary_table df year_selected source_city_selected;
     lat := (λ s, agg_start_lat (agg s))
            <$> summary_table df year_selected source_city_selected;
     text := hover_text <$> summary_table df year_selected source_city_selected;
     marker_size := rc_flight_count <$> assigned_route_counts df;
     marker_sizeref := sizeref_of M;
     marker_color := cols |}.

(** The group-by columns of [route_counts], read off a table row. *)
Definition row_route_key (r : Row)
    : option ((string * string) * coord * coord * string) :=
  route_key (route_of r, r).

(** A selection on which [update_graph] returns a figure: some row of the
    table has its origin coordinates, and every origin city of a filtered
    row has a filtered row with its origin coordinates. *)
Definition drawable (df : DataFrame) (year_selected : option (list Z))
    (source_city_selected : option (list string)) : Prop :=
  (∃ r, r ∈ rows df ∧ has_origin r) ∧
  ∀ r, r ∈ df_year year_selected source_city_selected df →
       ∃ r', r' ∈ df_year year_selected source_city_selected df ∧
             city1 r' = city1 r ∧ has_origin r'.

#[global] Instance drawable_dec df ys cs : Decision (drawable df ys cs).
Proof.
  refine (cast_if (decide
    (Exists has_origin (rows df) ∧
     Forall (λ r, Exists (λ r', city1 r' = city1 r ∧ has_origin r')
                         (df_year ys cs df))
            (df_year ys cs df))));
    [rename select (_ ∧ _) into H|rename select (¬ _) into H]; revert H;
    unfold drawable; rewrite Exists_exists, Forall_forall;
    setoid_rewrite Exists_exists; naive_solver.
Defined.

(** ** The specification's wording, for comparison *)

(** Per-route flight counts as the specification words them: the
    filtered rows grouped by the unordered route key alone. *)
Definition route_counts_spec (dfy : list Row) : list ((string * string) * Z) :=
  (λ g, (g.1, Z.of_nat (length g.2)))
  <$> groupby (lex_leb String.leb String.leb) route_of dfy.

(** Monotone marker sizes as the specification words them: of two routes
    of the filtered rows, the one with strictly more flights has no size
    entry below a size entry of the other, an entry of the size column
    belonging to the route of the same row of [route_counts]. *)
Definition monotone_in_route_count (dfy : list Row) (rc : list RouteCount)
    (sizes : list Z) : Prop :=
  ∀ k1 k2 n1 n2 i j s1 s2,
    (k1, n1) ∈ route_counts_spec dfy → (k2, n2) ∈ route_counts_spec dfy →
    n1 < n2 →
    rc_route <$> rc !! i = Some k1 → rc_route <$> rc !! j = Some k2 →
    sizes !! i = Some s1 → sizes !! j = Some s2 →
    s1 ≤ s2.

(** One summary row for every origin city of the filtered rows. *)
Definition one_row_per_city (dfy : list Row) (dfa : list Summary) : Prop :=
  ∀ c, c ∈ city1 <$> dfy → length (filter (λ s, summary_city s = c) dfa) = 1%nat.

(** First-wins per city: a summary row reports the airport and the
    destination of the first filtered row of its city, and the passengers
    of all the filtered rows of its city. *)
Definition first_wins_per_city (dfy : list Row) (dfa : list Summary) : Prop :=
  ∀ s, s ∈ dfa →
    ∃ r rest, filter (λ r, city1 r = summary_city s) dfy = r :: rest ∧
      agg_airport_1 (agg s) = airport_1 r ∧
      agg_end_lat (agg s) = end_lat r ∧
      agg_end_lon (agg s) = end_lon r ∧
      agg_passengers (agg s) = sum_Z (passengers <$> r :: rest).

End Dashboard.

(** ** Example tables (coordinates as whole degrees) *)

(** The float expressions of the program, uninterpreted: the examples
    keep the expression line 120 evaluates instead of rounding it. *)
Inductive FloatExpr :=
  | FInt (z : Z)
  | FMul (a b : FloatExpr)
  | FDiv (a b : FloatExpr)
  | FPow (a b : FloatExpr).

Definition float_expr : FloatOps FloatExpr :=
  {| float_of_int := FInt; fmul := FMul; fdiv := FDiv; fpow := FPow |}.

(** A row with all four coordinates. *)
Definition flight (year : Z) (c1 c2 ap : string) (p la lo ela elo : Z) : @Row Z :=
  mkRow year c1 c2 ap p (Some la) (Some lo) (Some ela) (Some elo).

(** The two-row scenario of the specification: both flights leave Austin. *)
Definition scenario : @DataFrame Z :=
  {| rows := [flight 2020 "Austin" "Dallas" "AUS" 100 30 (-97) 32 (-96);
              flight 2021 "Austin" "Houston" "AUS" 50 30 (-97) 29 (-95)];
     route := None |}.

(** One corridor flown in both directions, and a second corridor in
    another year. *)
Definition both_directions : @DataFrame Z :=
  {| rows := [flight 2020 "Austin" "Dallas" "AUS" 100 30 (-97) 32 (-96);
              flight 2020 "Dallas" "Austin" "DFW" 80 32 (-96) 30 (-97);
              flight 2021 "Austin" "Houston" "AUS" 50 30 (-97) 29 (-95)];
     route := None |}.

(** One origin city recorded with two different origin coordinates. *)
Definition two_coordinates : @DataFrame Z :=
  {| rows := [flight 2020 "Austin" "Dallas" "AUS" 100 30 (-97) 32 (-96);
              flight 2020 "Austin" "Houston" "EDC" 50 31 (-98) 29 (-95)];
     route := None |}.

(** The summary row of the second coordinate group of [two_coordinates]. *)
Definition austin_second_group : @Summary Z :=
  {| agg := {| agg_city1 := "Austin"; agg_start_lat := 31; agg_start_lon := -98;
               agg_passengers := 50; agg_airport_1 := "EDC";
               agg_end_lat := Some 29; agg_end_lon := Some (-95) |};
     flight_count := Some 2;
     hover_text := "City: Austin<br>Total Flights: 2<br>Passengers: 50<br>Airport: EDC" |}.

(** Austin with two origin coordinates, the second one on two flights. *)
Definition two_groups : @DataFrame Z :=
  {| rows := [flight 2020 "Austin" "Dallas" "AUS" 100 30 (-97) 32 (-96);
              flight 2020 "Austin" "Houston" "EDC" 50 31 (-98) 29 (-95);
              flight 2020 "Austin" "Boston" "EDC" 7 31 (-98) 42 (-71)];
     route := None |}.

(** The summary row of the second coordinate group of [two_groups]. *)
Definition austin_edc_group : @Summary Z :=
  {| agg := {| agg_city1 := "Austin"; agg_start_lat := 31; agg_start_lon := -98;
               agg_passengers := 57; agg_airport_1 := "EDC";
               agg_end_lat := Some 29; agg_end_lon := Some (-95) |};
     flight_count := Some 3;
     hover_text := "City: Austin<br>Total Flights: 3<br>Passengers: 57<br>Airport: EDC" |}.

(** Three Austin-Dallas flights, in both directions and from two Austin
    airports, and two identical Boston-Chicago flights. *)
Definition split_routes : @DataFrame Z :=
  {| rows := [flight 2020 "Austin" "Dallas" "AUS" 100 30 (-97) 32 (-96);
              flight 2020 "Dallas" "Austin" "DFW" 80 32 (-96) 30 (-97);
              flight 2020 "Austin" "Dallas" "EDC" 60 30 (-97) 32 (-96);
              flight 2020 "Boston" "Chicago" "BOS" 40 42 (-71) 41 (-87);
              flight 2021 "Boston" "Chicago" "BOS" 45 42 (-71) 41 (-87)];
     route := None |}.

(** The table the loader makes of [short_csv]: the first Austin row
    misses its origin longitude. *)
Definition short_table : @DataFrame Z :=
  {| rows := [mkRow 2020 "Austin" "Dallas" "AUS" 100 (Some 30) None
                    (Some 32) (Some (-96));
              flight 2021 "Austin" "Houston" "AUS" 50 30 (-97) 29 (-95)];
     route := None |}.

(** A table in which the only Boston row misses its origin longitude. *)
Definition missing_origin : @DataFrame Z :=
  {| rows := [flight 2020 "Austin" "Dallas" "AUS" 100 30 (-97) 32 (-96);
              mkRow 2020 "Boston" "Chicago" "BOS" 80 (Some 42) None
                    (Some 41) (Some (-87))];
     route := None |}.

(** A one-row table whose row misses its origin longitude. *)
Definition no_origin : @DataFrame Z :=
  {| rows := [mkRow 2020 "Austin" "Dallas" "AUS" 100 (Some 30) None
                    (Some 32) (Some (-96))];
     route := None |}.

(** A group whose first row misses its destination, and two passenger
    counts that overflow an int64 sum. *)
Definition late_destination : @DataFrame Z :=
  {| rows := [mkRow 2020 "Austin" "Dallas" "AUS" (2 ^ 62) (Some 30) (Some (-97))
                    None None;
              flight 2020 "Austin" "Houston" "AUS" (2 ^ 62) 30 (-97) 29 (-95)];
     route := None |}.

(** Twelve flights from twelve cities, more cities than the palette has
    colours. *)
Definition twelve_cities : @DataFrame Z :=
  {| rows := (λ c : string, flight 2020 c "Zurich" c 10 1 2 3 4)
             <$> ["A"; "B"; "C"; "D"; "E"; "F"; "G"; "H"; "I"; "J"; "K"; "L"];
     route := None |}.

(** ** A dropdown value read as a restriction *)

(** What a dropdown value lets through: everything when nothing is
    selected, the selected values otherwise. *)
Definition passes {A} (sel : option (list A)) (x : A) : Prop :=
  match sel with
  | None => True
  | Some [] => True
  | Some l => x ∈ l
  end.

#[global] Instance passes_dec {A} `{!EqDecision A} (sel : option (list A)) (x : A) :
  Decision (passes sel x).
Proof. destruct sel as [[|y l]|]; simpl; apply _. Defined.

(** ** The page layout: the options of the two dropdowns *)

(** One entry of a dropdown's [options] list. *)
Record DropdownOption (V : Type) := mkOption { label : V; value : V }.

Arguments mkOption {V} _ _.
Arguments label {V} _.
Arguments value {V} _.

Section Layout.
Context {coord : Type}.

(** [sorted([{'label': year, 'value': year} for year in df['Year'].unique()],
            key=lambda x: x['value'])] *)
Definition year_options (df : @DataFrame coord) : list (DropdownOption Z) :=
  merge_sort (λ a b, Z.leb (value a) (value b))
             ((λ year, mkOption year year) <$> unique (Year <$> rows df)).

(** [sorted([{'label': source, 'value': source} for source in
            df['city1'].unique()], key=lambda x: x['label'])] *)
Definition source_city_options (df : @DataFrame coord)
    : list (DropdownOption string) :=
  merge_sort (λ a b, String.leb (label a) (label b))
             ((λ source, mkOption source source) <$> unique (city1 <$> rows df)).

End Layout.

(** ** A run of the callback over successive input changes *)

Section Session.
Context {coord F : Type} `{!EqDecision coord, !FloatOps F}.
Variable coord_leb : coord → coord → bool.

(** The values of the two dropdowns at one input change. *)
Definition Event : Type := option (list Z) * option (list string).

(** One dispatch of the callback: the table is the one the previous call
    left, the outcome is appended to the outcomes so far. *)
Definition dispatch (st : @DataFrame coord * list (Result (@Figure coord F)))
    (ev : Event) : @DataFrame coord * list (Result (@Figure coord F)) :=
  let out := update_graph coord_leb st.1 ev.1 ev.2 in
  (out.1, st.2 ++ [out.2]).

Definition session (df : @DataFrame coord) (events : list Event)
    : @DataFrame coord * list (Result (@Figure coord F)) :=
  foldl dispatch (df, []) events.

End Session.

(** ** The loader *)

(** [s.split(', ')]: the pieces of [s] between the occurrences of the
    two-character separator, found from left to right. *)
Fixpoint split (s : string) : list string :=
  match s with
  | EmptyString => [EmptyString]
  | String c rest =>
      let keep := match split rest with
                  | t :: ts => String c t :: ts
                  | [] => [String c EmptyString]
                  end in
      match rest with
      | String c' rest' =>
          if Ascii.eqb c ","%char && Ascii.eqb c' " "%char
          then EmptyString :: split rest'
          else keep
      | EmptyString => keep
      end
  end.

(** [Series.str.split(', ', expand=True)]: one column per piece position,
    as many columns as the longest row has pieces (none for a column
    without rows), shorter rows padded with empty cells. *)
Definition expand_width (col : list string) : nat :=
  max_list ((λ s, length (split s)) <$> col).

Definition expand (col : list string) : list (list (option string)) :=
  (λ s, (Some <$> split s)
        ++ replicate (expand_width col - length (split s)) None) <$> col.

(** [df[[a, b]] = frame]: the frame must have exactly two columns. *)
Definition assign_two (width : nat) (cells : list (list (option string)))
    : Result (list (option string * option string)) :=
  if decide (width = 2%nat) then
    ret ((λ r, match r with
               | [a; b] => (a, b)
               | _ => (None, None)
               end) <$> cells)
  else raise (ValueError "Columns must be same length as key").

(** Splitting one coordinate column and assigning the two new columns. *)
Definition split_column (col : list string)
    : Result (list (option string * option string)) :=
  assign_two (expand_width col) (expand col).

(** The two cells of a row of a split with two columns: a string of one
    piece leaves the second cell empty. *)
Definition cell_pair (s : string) : option string * option string :=
  match split s with
  | [a] => (Some a, None)
  | [a; b] => (Some a, Some b)
  | _ => (None, None)
  end.

Section Loader.
Context {coord : Type}.

(** Whether [read_csv] reads a cell text as a number or as a missing
    value. *)
Variable numeric_text : string → bool.

(** [pd.to_numeric] on one string: [None] when the string cannot be
    parsed (an exception), [Some None] when it reads as a missing value,
    [Some (Some x)] for the number [x]. *)
Variable to_numeric : string → option (option coord).

(** A row of the CSV file, with the columns the program reads. *)
Record RawRow := mkRawRow {
  raw_Year : Z;
  raw_city1 : string;
  raw_city2 : string;
  raw_airport_1 : string;
  raw_passengers : Z;
  Geocoded_City1 : string;
  Geocoded_City2 : string;
}.

(** A row after loading; a coordinate cell may be missing. *)
Record LoadedRow := mkLoadedRow {
  raw : RawRow;
  loaded_start_lat : option coord;
  loaded_start_lon : option coord;
  loaded_end_lat : option coord;
  loaded_end_lon : option coord;
}.

(** [read_csv] gives a column with rows whose cells all read as numbers
    or missing values a numeric type; any other column holds strings.  A
    text that holds the separator does not read as a number. *)
Definition numeric_column (col : list string) : Prop :=
  col ≠ [] ∧ Forall (λ s, split s = [s] ∧ numeric_text s = true) col.

#[global] Instance numeric_column_dec col : Decision (numeric_column col).
Proof. unfold numeric_column. apply _. Defined.

(** [df[col].str]: the accessor raises on a column that is not text. *)
Definition str_accessor (col : list string) : Result (list string) :=
  if decide (numeric_column col)
  then raise (AttributeError "Can only use .str accessor with string values!")
  else ret col.

(** [pd.to_numeric] on one cell of a column: an empty cell stays empty. *)
Definition to_numeric_cell (c : option string) : Result (option coord) :=
  match c with
  | None => ret None
  | Some s =>
      match to_numeric s with
      | Some v => ret v
      | None => raise (ValueError "Unable to parse string")
      end
  end.

(** Lines 10 to 22: the two splits, then the four conversions, column by
    column. *)
Definition load (csv : list RawRow) : Result (list LoadedRow) :=
  c1 ← str_accessor (Geocoded_City1 <$> csv);
  p1 ← split_column c1;
  c2 ← str_accessor (Geocoded_City2 <$> csv);
  p2 ← split_column c2;
  start_lat ← for_each to_numeric_cell (fst <$> p1);
  start_lon ← for_each to_numeric_cell (snd <$> p1);
  end_lat ← for_each to_numeric_cell (fst <$> p2);
  end_lon ← for_each to_numeric_cell (snd <$> p2);
  ret (zip_with (λ r c, mkLoadedRow r c.1.1.1 c.1.1.2 c.1.2 c.2) csv
         (zip (zip (zip start_lat start_lon) end_lat) end_lon)).

(** The row [update_graph] works on. *)
Definition table_row (l : LoadedRow) : @Row coord :=
  mkRow (raw_Year (raw l)) (raw_city1 (raw l)) (raw_city2 (raw l))
        (raw_airport_1 (raw l)) (raw_passengers (raw l))
        (loaded_start_lat l) (loaded_start_lon l)
        (loaded_end_lat l) (loaded_end_lon l).

(** The module-level [df] after loading. *)
Definition loaded_table (t : list LoadedRow) : @DataFrame coord :=
  {| rows := table_row <$> t; route := None |}.

(** The row [update_graph] works on, when no coordinate is missing. *)
Definition to_row (l : LoadedRow) : option (@Row coord) :=
  la ← loaded_start_lat l; lo ← loaded_start_lon l;
  ela ← loaded_end_lat l; elo ← loaded_end_lon l;
  Some (mkRow (raw_Year (raw l)) (raw_city1 (raw l)) (raw_city2 (raw l))
              (raw_airport_1 (raw l)) (raw_passengers (raw l))
              (Some la) (Some lo) (Some ela) (Some elo)).

(** The module-level [df] after loading, when no coordinate is missing. *)
Definition loaded_df (t : list LoadedRow) : option (@DataFrame coord) :=
  rs ← mapM to_row t; Some {| rows := rs; route := None |}.

(** The number in a cell once the column has been converted. *)
Definition numeric (c : option string) : option coord :=
  s ← c; default None (to_numeric s).

(** The loaded row of a CSV row, when the load succeeds. *)
Definition load_row (r : RawRow) : LoadedRow :=
  {| raw := r;
     loaded_start_lat := numeric (cell_pair (Geocoded_City1 r)).1;
     loaded_start_lon := numeric (cell_pair (Geocoded_City1 r)).2;
     loaded_end_lat := numeric (cell_pair (Geocoded_City2 r)).1;
     loaded_end_lon := numeric (cell_pair (Geocoded_City2 r)).2 |}.

(** The cells of a CSV row all convert. *)
Definition converts (r : RawRow) : Prop :=
  ∀ c, c ∈ [(cell_pair (Geocoded_City1 r)).1; (cell_pair (Geocoded_City1 r)).2;
            (cell_pair (Geocoded_City2 r)).1; (cell_pair (Geocoded_City2 r)).2] →
       ∃ v, to_numeric_cell c = inr v.

(** A CSV row whose two coordinate strings are each two numbers around
    one separator, and the table row it stands for. *)
Definition well_formed (r : RawRow) (row : @Row coord) : Prop :=
  ∃ la lo ela elo,
    Geocoded_City1 r = la +:+ ", " +:+ lo ∧ split la = [la] ∧ split lo = [lo] ∧
    Geocoded_City2 r = ela +:+ ", " +:+ elo ∧ split ela = [ela] ∧ split elo = [elo] ∧
    is_Some (start_lat row) ∧ to_numeric la = Some (start_lat row) ∧
    is_Some (start_lon row) ∧ to_numeric lo = Some (start_lon row) ∧
    is_Some (end_lat row) ∧ to_numeric ela = Some (end_lat row) ∧
    is_Some (end_lon row) ∧ to_numeric elo = Some (end_lon row) ∧
    Year row = raw_Year r ∧ city1 row = raw_city1 r ∧ city2 row = raw_city2 r ∧
    airport_1 row = raw_airport_1 r ∧ passengers row = raw_passengers r.

End Loader.

(** A reader of whole numbers, standing for [pd.to_numeric] in the
    examples. *)
Definition to_numeric_Z (s : string) : option (option Z) :=
  if decide (s = "") then Some None
  else (λ i, Some (Z.of_int i)) <$> NilZero.int_of_string s.

(** The texts [to_numeric_Z] reads as a number or as a missing value,
    standing for the type inference of [read_csv] in the examples. *)
Definition numeric_text_Z (s : string) : bool :=
  bool_decide (s = "" ∨ is_Some (NilZero.int_of_string s)).

(** The CSV rows of [scenario]. *)
Definition scenario_csv : list RawRow :=
  [mkRawRow 2020 "Austin" "Dallas" "AUS" 100 "30, -97" "32, -96";
   mkRawRow 2021 "Austin" "Houston" "AUS" 50 "30, -97" "29, -95"].

(** A file whose first coordinate string has a single piece. *)
Definition short_csv : list RawRow :=
  [mkRawRow 2020 "Austin" "Dallas" "AUS" 100 "30" "32, -96";
   mkRawRow 2021 "Austin" "Houston" "AUS" 50 "30, -97" "29, -95"].

(** The CSV rows of [missing_origin]: the origin of the Boston flight has
    a single piece. *)
Definition missing_origin_csv : list RawRow :=
  [mkRawRow 2020 "Austin" "Dallas" "AUS" 100 "30, -97" "32, -96";
   mkRawRow 2020 "Boston" "Chicago" "BOS" 80 "42" "41, -87"].

(** The CSV row of [no_origin]: the second piece of the origin is empty. *)
Definition no_origin_csv : list RawRow :=
  [mkRawRow 2020 "Austin" "Dallas" "AUS" 100 "30, " "32, -96"].

(** A file whose first coordinate column holds numbers only. *)
Definition numbers_csv : list RawRow :=
  [mkRawRow 2020 "Austin" "Dallas" "AUS" 100 "30" "32, -96"].

(** * Properties *)

(** ** Lemmas on the table operations *)

Section Unique.
Context {A : Type} `{!EqDecision A}.

Lemma elem_of_unique (l : list A) x : x ∈ unique l ↔ x ∈ l.
Proof.
  induction l as [|a l IH]; simpl; [done|].
  rewrite !elem_of_cons, list_elem_of_filter, IH.
  destruct (decide (x = a)); tauto.
Qed.

Lemma NoDup_unique (l : list A) : NoDup (unique l).
Proof.
  induction l as [|a l IH]; simpl; [constructor|].
  constructor; [|by apply NoDup_filter].
  rewrite list_elem_of_filter. tauto.
Qed.

Lemma unique_nil (l : list A) : unique l = [] ↔ l = [].
Proof. destruct l; simpl; split; congruence. Qed.

Lemma unique_idemp (l : list A) : NoDup l → unique l = l.
Proof.
  induction 1 as [|a l Hnin Hnd IH]; simpl; [done|].
  rewrite IH. f_equal.
  clear IH Hnd. induction l as [|b l IH]; [done|].
  rewrite not_elem_of_cons in Hnin. destruct Hnin as [Hne Hnin].
  rewrite filter_cons_True by done. f_equal. by apply IH.
Qed.

End Unique.

Lemma sum_Z_cons (x : Z) (l : list Z) : sum_Z (x :: l) = x + sum_Z l.
Proof. reflexivity. Qed.

Section Tables.
Context {A K : Type} `{!EqDecision K}.

Variable leb : K → K → bool.
Variable key : A → K.

Lemma elem_of_group_keys (l : list A) k :
  k ∈ group_keys leb key l ↔ ∃ a, a ∈ l ∧ key a = k.
Proof.
  unfold group_keys. rewrite merge_sort_Permutation, elem_of_unique.
  rewrite list_elem_of_fmap. split.
  - intros (a & -> & Ha). by exists a.
  - intros (a & Ha & <-). by exists a.
Qed.

Lemma NoDup_group_keys (l : list A) : NoDup (group_keys leb key l).
Proof.
  unfold group_keys. rewrite merge_sort_Permutation. apply NoDup_unique.
Qed.

Lemma group_keys_nil (l : list A) : group_keys leb key l = [] ↔ l = [].
Proof.
  split; [|by intros ->].
  intros Hk. destruct l as [|a l]; [done|].
  assert (key a ∈ group_keys leb key (a :: l)) as Hin
    by (apply elem_of_group_keys; exists a; split; [left|done]).
  rewrite Hk in Hin. by apply elem_of_nil in Hin.
Qed.

(** Every group of [groupby] has a first row. *)
Lemma groupby_nonempty (l : list A) k g :
  (k, g) ∈ groupby leb key l →
  g = filter (λ a, key a = k) l ∧ ∃ a rest, g = a :: rest ∧ key a = k.
Proof.
  unfold groupby. rewrite list_elem_of_fmap.
  intros (k' & [= -> ->] & Hk). split; [done|].
  apply elem_of_group_keys in Hk as (a & Ha & Hka).
  assert (a ∈ filter (λ a, key a = k') l) as Hin
    by by apply list_elem_of_filter.
  destruct (filter (λ a, key a = k') l) as [|b rest] eqn:Hf.
  { by apply elem_of_nil in Hin. }
  exists b, rest. split; [done|].
  assert (b ∈ filter (λ a, key a = k') l) as Hb by (rewrite Hf; left).
  by apply list_elem_of_filter in Hb as [? _].
Qed.

Lemma sum_Z_fmap_add (h1 h2 : K → Z) (ks : list K) :
  sum_Z ((λ k, h1 k + h2 k) <$> ks) = sum_Z (h1 <$> ks) + sum_Z (h2 <$> ks).
Proof.
  induction ks as [|k ks IH]; [done|].
  rewrite !fmap_cons, !sum_Z_cons, IH. lia.
Qed.

Lemma sum_Z_fmap_zero (ks : list K) : sum_Z ((λ _, 0) <$> ks) = 0.
Proof.
  induction ks as [|k ks IH]; [done|]. by rewrite fmap_cons, sum_Z_cons, IH.
Qed.

(** A value placed at one key of a duplicate-free key list is counted
    once. *)
Lemma sum_Z_indicator (k0 : K) (v : Z) (ks : list K) :
  NoDup ks → k0 ∈ ks →
  sum_Z ((λ k, if decide (k0 = k) then v else 0) <$> ks) = v.
Proof.
  induction 1 as [|k ks Hnin Hnd IH]; intros Hin.
  { by apply elem_of_nil in Hin. }
  rewrite fmap_cons, sum_Z_cons.
  destruct (decide (k0 = k)) as [->|Hne].
  - erewrite (list_fmap_ext _ (λ _, 0)).
    + rewrite sum_Z_fmap_zero. lia.
    + intros _ k' Hk'%list_elem_of_lookup_2.
      destruct (decide (k = k')) as [->|]; [done|done].
  - apply elem_of_cons in Hin as [?|Hin]; [done|]. rewrite IH by done. lia.
Qed.

(** Splitting a column sum over a family of distinct keys that covers
    the rows loses nothing and counts nothing twice. *)
Lemma sum_Z_groups (f : A → Z) (ks : list K) (l : list A) :
  NoDup ks → (∀ a, a ∈ l → key a ∈ ks) →
  sum_Z ((λ k, sum_Z (f <$> filter (λ a, key a = k) l)) <$> ks) = sum_Z (f <$> l).
Proof.
  intros Hnd. induction l as [|a l IH]; intros Hcov.
  - apply sum_Z_fmap_zero.
  - rewrite fmap_cons, sum_Z_cons.
    rewrite <- IH by (intros b Hb; apply Hcov; by right).
    rewrite <- (sum_Z_indicator (key a) (f a) ks Hnd) at 1 by (apply Hcov; left).
    rewrite <- sum_Z_fmap_add. f_equal.
    apply list_fmap_ext. intros _ k _.
    rewrite filter_cons. destruct (decide (key a = k)); [|done].
    by rewrite fmap_cons, sum_Z_cons.
Qed.

(** Likewise for the sizes of the groups. *)
Lemma length_groups (ks : list K) (l : list A) :
  NoDup ks → (∀ a, a ∈ l → key a ∈ ks) →
  sum_Z ((λ k, Z.of_nat (length (filter (λ a, key a = k) l))) <$> ks)
  = Z.of_nat (length l).
Proof.
  intros Hnd Hcov.
  pose proof (sum_Z_groups (λ _, 1) ks l Hnd Hcov) as H.
  assert (∀ l' : list A, sum_Z ((λ _, 1) <$> l') = Z.of_nat (length l')) as Hone.
  { clear. induction l' as [|a l' IH]; [done|].
    rewrite fmap_cons, sum_Z_cons, IH, length_cons. lia. }
  rewrite Hone in H. rewrite <- H. f_equal.
  apply list_fmap_ext. intros _ k _. by rewrite Hone.
Qed.

End Tables.

(** ** Lemmas on the error monad, [max] and the colour dictionary *)

Lemma for_each_Forall2 {A B} (f : A → Result B) (l : list A) (bs : list B) :
  for_each f l = inr bs ↔ Forall2 (λ a b, f a = inr b) l bs.
Proof.
  revert bs. induction l as [|a l IH]; intros bs; simpl.
  - split.
    + intros [= <-]. constructor.
    + intros H. inversion H. done.
  - split.
    + destruct (f a) as [e|b] eqn:Hfa; [done|]. simpl.
      destruct (for_each f l) as [e|bs'] eqn:Hl; [done|]. simpl.
      intros [= <-]. constructor; [done|]. by apply IH.
    + intros H. inversion H as [|? b ? bs' Hfa Hrest]; subst.
      rewrite Hfa. simpl. apply IH in Hrest. rewrite Hrest. done.
Qed.

Lemma for_each_total {A B} (f : A → Result B) (l : list A) :
  (∀ a, a ∈ l → ∃ b, f a = inr b) → ∃ bs, for_each f l = inr bs.
Proof.
  induction l as [|a l IH]; intros Hok; simpl.
  - by exists [].
  - destruct (Hok a) as [b Hb]; [left|].
    destruct IH as [bs Hbs]; [intros; apply Hok; by right|].
    exists (b :: bs). rewrite Hb. simpl. rewrite Hbs. done.
Qed.

Lemma foldl_max_le (l : list Z) (x : Z) :
  x ≤ foldl Z.max x l ∧ ∀ y, y ∈ l → y ≤ foldl Z.max x l.
Proof.
  revert x. induction l as [|a l IH]; intros x; simpl.
  - split; [lia|]. intros y Hy. by apply elem_of_nil in Hy.
  - destruct (IH (Z.max x a)) as [H1 H2]. split; [lia|].
    intros y [->|Hy]%elem_of_cons; [lia|by apply H2].
Qed.

Lemma foldl_max_elem (l : list Z) (x : Z) : foldl Z.max x l ∈ x :: l.
Proof.
  revert x. induction l as [|a l IH]; intros x; simpl; [left|].
  specialize (IH (Z.max x a)).
  apply elem_of_cons in IH as [Heq|Hin].
  - rewrite Heq. destruct (Z.max_spec x a) as [[_ ->]|[_ ->]]; [right; left|left].
  - right; by right.
Qed.

(** On a non-empty column [max] returns an entry that bounds the column. *)
Lemma py_max_spec (l : list Z) :
  l ≠ [] → ∃ m, py_max l = inr m ∧ m ∈ l ∧ ∀ y, y ∈ l → y ≤ m.
Proof.
  destruct l as [|x l]; [done|]. intros _.
  exists (foldl Z.max x l). split; [done|]. split; [apply foldl_max_elem|].
  destruct (foldl_max_le l x) as [H1 H2].
  intros y [->|Hy]%elem_of_cons; [done|by apply H2].
Qed.

Lemma city_colors_snoc (us : list string) (c : string) :
  city_colors (us ++ [c]) =
  <[c := color_scale !!! (length us `mod` length color_scale)%nat]> (city_colors us).
Proof.
  unfold city_colors. rewrite imap_app, foldl_app. simpl.
  by rewrite Nat.add_0_r.
Qed.

(** The dictionary maps the city at position [i] of a duplicate-free list
    to the palette entry [i mod 10]. *)
Lemma city_colors_lookup (us : list string) (i : nat) (c : string) :
  NoDup us → us !! i = Some c →
  city_colors us !! c = Some (color_scale !!! (i `mod` length color_scale)%nat).
Proof.
  revert i c. induction us as [|u us IH] using rev_ind; intros i c Hnd Hi.
  { done. }
  rewrite city_colors_snoc.
  apply NoDup_app in Hnd as (Hnd & Hdisj & _).
  destruct (decide (i < length us)%nat) as [Hlt|Hge].
  - rewrite lookup_app_l in Hi by done.
    assert (c ≠ u) as Hne.
    { intros ->. apply (Hdisj u); [by eapply list_elem_of_lookup_2|left]. }
    rewrite lookup_insert_ne by done. by apply IH.
  - rewrite lookup_app_r in Hi by lia.
    destruct (i - length us)%nat as [|n] eqn:Hn; [|by destruct n].
    injection Hi as <-. assert (i = length us) as -> by lia.
    by rewrite lookup_insert_eq.
Qed.

Lemma city_colors_elem (us : list string) (c : string) :
  NoDup us → c ∈ us →
  ∃ k, us !! k = Some c ∧
       city_colors us !! c = Some (color_scale !!! (k `mod` length color_scale)%nat).
Proof.
  intros Hnd [k Hk]%list_elem_of_lookup_1. exists k. split; [done|].
  by apply city_colors_lookup.
Qed.


Lemma for_each_inl {A B} (f : A → Result B) (l : list A) (e : PyError) :
  for_each f l = inl e → ∃ a, a ∈ l ∧ f a = inl e.
Proof.
  induction l as [|a l IH]; simpl; [done|].
  destruct (f a) as [e'|b] eqn:Hfa; simpl.
  - intros [= ->]. exists a. split; [left|done].
  - destruct (for_each f l) as [e'|bs]; simpl; [|done].
    intros [= ->]. destruct IH as (a' & Ha' & Hf); [done|].
    exists a'. split; [by right|done].
Qed.

(** ** Lemmas on dropped rows and on int64 sums *)

Section Dropna.
Context {A K : Type} `{!EqDecision K}.
Variable key : A → option K.

Lemma elem_of_dropna (l : list A) k a :
  (k, a) ∈ dropna key l ↔ a ∈ l ∧ key a = Some k.
Proof.
  unfold dropna. rewrite list_elem_of_omap. split.
  - intros (a' & Ha' & Hk). destruct (key a') as [k'|] eqn:Hka; [|done].
    simpl in Hk. injection Hk as <- <-. done.
  - intros [Ha Hk]. exists a. split; [done|]. by rewrite Hk.
Qed.

Lemma dropna_keys (l : list A) k :
  k ∈ (dropna key l).*1 ↔ ∃ a, a ∈ l ∧ key a = Some k.
Proof.
  rewrite list_elem_of_fmap. split.
  - intros ([k' a] & -> & Hin). apply elem_of_dropna in Hin. by exists a.
  - intros (a & Ha & Hk). exists (k, a). split; [done|]. by apply elem_of_dropna.
Qed.

Lemma dropna_cons (a : A) (l : list A) :
  dropna key (a :: l)
  = match key a with
    | Some k => (k, a) :: dropna key l
    | None => dropna key l
    end.
Proof. unfold dropna. simpl. by destruct (key a). Qed.

(** The rows of a group, read off the table. *)
Lemma dropna_group (l : list A) k :
  (filter (λ p, p.1 = k) (dropna key l)).*2 = filter (λ a, key a = Some k) l.
Proof.
  induction l as [|a l IH]; [done|].
  rewrite dropna_cons, (filter_cons (λ a, key a = Some k)).
  destruct (key a) as [k'|] eqn:Hka.
  - rewrite filter_cons. simpl. destruct (decide (k' = k)) as [->|Hne].
    + rewrite decide_True by done. by rewrite fmap_cons, IH.
    + rewrite decide_False by congruence. done.
  - rewrite decide_False by done. done.
Qed.

Lemma dropna_nil (l : list A) :
  dropna key l = [] ↔ ∀ a, a ∈ l → key a = None.
Proof.
  split.
  - intros Hnil a Ha. destruct (key a) as [k|] eqn:Hk; [|done].
    assert ((k, a) ∈ dropna key l) as Hin by by apply elem_of_dropna.
    rewrite Hnil in Hin. by apply elem_of_nil in Hin.
  - intros Hall. destruct (dropna key l) as [|[k a] rest] eqn:Hd; [done|].
    assert ((k, a) ∈ dropna key l) as Hin by (rewrite Hd; left).
    apply elem_of_dropna in Hin as [Ha Hk]. rewrite (Hall a Ha) in Hk. done.
Qed.

Lemma length_dropna (l : list A) : (length (dropna key l) ≤ length l)%nat.
Proof.
  induction l as [|a l IH]; [done|].
  rewrite dropna_cons. destruct (key a); simpl; lia.
Qed.

End Dropna.

Lemma wrap64_small (z : Z) : - 2 ^ 63 ≤ z < 2 ^ 63 → wrap64 z = z.
Proof.
  intros Hz. unfold wrap64. rewrite Z.mod_small by lia. lia.
Qed.

Lemma wrap64_range (z : Z) : - 2 ^ 63 ≤ wrap64 z < 2 ^ 63.
Proof.
  unfold wrap64. pose proof (Z.mod_pos_bound (z + 2 ^ 63) (2 ^ 64)). lia.
Qed.

Lemma first_valid_head {A} (x : A) (l : list (option A)) :
  first_valid (Some x :: l) = Some x.
Proof. reflexivity. Qed.

Lemma first_valid_elem {A} (l : list (option A)) (x : A) :
  first_valid l = Some x →
  ∃ l1 l2, l = l1 ++ Some x :: l2 ∧ ∀ c, c ∈ l1 → c = None.
Proof.
  induction l as [|[a|] l IH]; simpl; [done| |].
  - intros [= ->]. exists [], l. split; [done|]. intros c Hc.
    by apply elem_of_nil in Hc.
  - intros (l1 & l2 & -> & Hl1)%IH. exists (None :: l1), l2. split; [done|].
    intros c [->|Hc]%elem_of_cons; [done|by apply Hl1].
Qed.

Lemma first_valid_None {A} (l : list (option A)) :
  first_valid l = None ↔ ∀ c, c ∈ l → c = None.
Proof.
  induction l as [|[a|] l IH]; simpl.
  - split; [|done]. intros _ c Hc. by apply elem_of_nil in Hc.
  - split; [done|]. intros H. by specialize (H (Some a) (list_elem_of_here _ _)).
  - rewrite IH. split.
    + intros H c [->|Hc]%elem_of_cons; [done|by apply H].
    + intros H c Hc. apply H. by right.
Qed.

(** ** Structure of the intermediate tables *)

Section Aggregation.
Context {coord : Type} `{!EqDecision coord}.
Variable coord_leb : coord → coord → bool.

#[local] Abbreviation Row := (@Row coord).
#[local] Abbreviation AggRow := (@AggRow coord).
#[local] Abbreviation Summary := (@Summary coord).

Lemma city_key_Some (r : Row) k :
  city_key r = Some k ↔
  start_lat r = Some k.1.2 ∧ start_lon r = Some k.2 ∧ city1 r = k.1.1.
Proof.
  unfold city_key. destruct k as [[c la] lo].
  destruct (start_lat r) as [a|], (start_lon r) as [b|]; simpl; split.
  all: try (by intros [= <- <- <-]); try (by intros (? & ? & ?)).
  all: try (intros ([= ->] & [= ->] & ->); done).
Qed.

Lemma has_origin_city_key (r : Row) : has_origin r ↔ is_Some (city_key r).
Proof.
  unfold has_origin, city_key.
  destruct (start_lat r), (start_lon r); simpl; split.
  all: try (by intros [[??] [??]]); try (by intros [??]); try done.
  all: try (intros _; split; by eexists).
Qed.

Lemma has_origin_route_key (r : Row) rt : has_origin r ↔ is_Some (route_key (rt, r)).
Proof.
  unfold has_origin, route_key. simpl.
  destruct (start_lat r), (start_lon r); simpl; split.
  all: try (by intros [[??] [??]]); try (by intros [??]); try done.
  all: try (intros _; split; by eexists).
Qed.

(** The sorted distinct keys of line 77. *)
Lemma elem_of_city_keys (dfy : list Row) k :
  k ∈ group_keys (city_key_leb coord_leb) fst (dropna city_key dfy)
  ↔ ∃ r, r ∈ dfy ∧ city_key r = Some k.
Proof.
  rewrite elem_of_group_keys. split.
  - intros ([k' r] & Hin & <-). apply elem_of_dropna in Hin. by exists r.
  - intros (r & Hr & Hk). exists (k, r). split; [|done]. by apply elem_of_dropna.
Qed.

Lemma agg_group_eq (dfy : list Row) (k : string * coord * coord) :
  agg_group (k, filter (λ p, p.1 = k) (dropna city_key dfy))
  = match city_group dfy k with
    | [] => None
    | r :: _ => Some (agg_of dfy k r)
    end.
Proof.
  unfold agg_group, agg_of, city_group. rewrite <- !(dropna_group city_key).
  simpl. destruct (filter (λ p, p.1 = k) (dropna city_key dfy)) as [|p g]; [done|].
  destruct k as [[c la] lo]. rewrite <- !list_fmap_compose. done.
Qed.

Lemma city_group_nonempty (dfy : list Row) k :
  k ∈ group_keys (city_key_leb coord_leb) fst (dropna city_key dfy) →
  city_group dfy k ≠ [].
Proof.
  intros (r & Hr & Hk)%elem_of_city_keys Hnil.
  by eapply (filter_nil_not_elem_of (λ r0, city_key r0 = Some k)).
Qed.

Lemma aggregate_elem (dfy : list Row) (a : AggRow) :
  a ∈ aggregate coord_leb dfy ↔
  ∃ k r rest, k ∈ group_keys (city_key_leb coord_leb) fst (dropna city_key dfy) ∧
    city_group dfy k = r :: rest ∧ a = agg_of dfy k r.
Proof.
  unfold aggregate, groupby. rewrite list_elem_of_omap. split.
  - intros (g & (k & -> & Hk)%list_elem_of_fmap & Hagg).
    rewrite agg_group_eq in Hagg.
    destruct (city_group dfy k) as [|r rest] eqn:Hg; [done|].
    injection Hagg as <-. by exists k, r, rest.
  - intros (k & r & rest & Hk & Hg & ->).
    exists (k, filter (λ p, p.1 = k) (dropna city_key dfy)). split.
    + apply list_elem_of_fmap. by exists k.
    + by rewrite agg_group_eq, Hg.
Qed.

(** No group is dropped: a column of [aggregate] that is determined by
    the group key lists one value per sorted distinct key. *)
Lemma aggregate_column {B} (h : AggRow → B) (h' : string * coord * coord → B)
    (dfy : list Row) :
  (∀ k r, h (agg_of dfy k r) = h' k) →
  h <$> aggregate coord_leb dfy
  = h' <$> group_keys (city_key_leb coord_leb) fst (dropna city_key dfy).
Proof.
  intros Hh. unfold aggregate, groupby.
  pose proof (city_group_nonempty dfy) as Hne.
  induction (group_keys (city_key_leb coord_leb) fst (dropna city_key dfy))
    as [|k ks IH].
  { done. }
  rewrite !fmap_cons. simpl omap. rewrite agg_group_eq.
  destruct (city_group dfy k) as [|r rest] eqn:Hf.
  { exfalso. eapply Hne; [left|done]. }
  rewrite fmap_cons, Hh. f_equal.
  apply IH. intros k' Hk'. apply Hne. by right.
Qed.

Lemma aggregate_keys (dfy : list Row) :
  agg_key <$> aggregate coord_leb dfy
  = group_keys (city_key_leb coord_leb) fst (dropna city_key dfy).
Proof.
  rewrite (aggregate_column agg_key id); [apply list_fmap_id|].
  by intros [[c la] lo] r.
Qed.

Lemma aggregate_passengers (dfy : list Row) :
  agg_passengers <$> aggregate coord_leb dfy
  = (λ k, int64_sum (passengers <$> city_group dfy k))
    <$> group_keys (city_key_leb coord_leb) fst (dropna city_key dfy).
Proof. by apply aggregate_column. Qed.

Lemma NoDup_aggregate_keys (dfy : list Row) :
  NoDup (agg_key <$> aggregate coord_leb dfy).
Proof. rewrite aggregate_keys. apply NoDup_group_keys. Qed.

(** The cities of [aggregate] are the origin cities of the rows that
    have their origin coordinates. *)
Lemma aggregate_city (dfy : list Row) (c : string) :
  c ∈ agg_city1 <$> aggregate coord_leb dfy ↔
  ∃ r, r ∈ dfy ∧ city1 r = c ∧ has_origin r.
Proof.
  rewrite (aggregate_column agg_city1 (λ k, k.1.1)) by done.
  rewrite list_elem_of_fmap. split.
  - intros (k & -> & (r & Hr & Hk)%elem_of_city_keys). exists r.
    split; [done|]. split.
    + by apply city_key_Some in Hk as (_ & _ & ?).
    + apply has_origin_city_key. by rewrite Hk.
  - intros (r & Hr & <- & [k Hk]%has_origin_city_key). exists k. split.
    + by apply city_key_Some in Hk as (_ & _ & ?).
    + apply elem_of_city_keys. by exists r.
Qed.

Lemma aggregate_city_filtered (dfy : list Row) (a : AggRow) :
  a ∈ aggregate coord_leb dfy → agg_city1 a ∈ city1 <$> dfy.
Proof.
  intros Ha.
  assert (agg_city1 a ∈ agg_city1 <$> aggregate coord_leb dfy) as Hc
    by by apply list_elem_of_fmap_2.
  apply aggregate_city in Hc as (r & Hr & <- & _). by apply list_elem_of_fmap_2.
Qed.

(** [value_counts] has exactly one row for a value of the column. *)
Lemma filter_value_counts (l : list string) (c : string) :
  c ∈ l →
  filter (λ p, p.1 = c) (value_counts l)
  = [(c, Z.of_nat (length (filter (λ y, y = c) l)))].
Proof.
  intros Hc. unfold value_counts.
  set (h := λ x : string, Z.of_nat (length (filter (λ y, y = x) l))).
  apply elem_of_unique in Hc. pose proof (NoDup_unique l) as Hnd.
  revert Hc. induction Hnd as [|u us Hnin Hnd IH]; intros Hc.
  { by apply elem_of_nil in Hc. }
  rewrite fmap_cons. destruct (decide (u = c)) as [->|Hne].
  - rewrite filter_cons_True by done. f_equal.
    clear IH Hc Hnd. induction us as [|v us IH]; [done|].
    apply not_elem_of_cons in Hnin as [Hv Hnin].
    rewrite fmap_cons, filter_cons_False by (simpl; congruence). by apply IH.
  - rewrite filter_cons_False by done.
    apply elem_of_cons in Hc as [?|Hc]; [congruence|]. by apply IH.
Qed.

(** The left join finds exactly one count for every aggregated row, so
    it neither duplicates nor drops a row, and no joined cell is empty. *)
Lemma df_aggregated_eq (dfy : list Row) :
  df_aggregated coord_leb dfy = summary_of dfy <$> aggregate coord_leb dfy.
Proof.
  unfold df_aggregated, merge_left.
  pose proof (aggregate_city_filtered dfy) as Hin.
  induction (aggregate coord_leb dfy) as [|a l IH]; [done|].
  rewrite bind_cons, fmap_app, fmap_cons.
  rewrite filter_value_counts by (apply Hin; left).
  simpl. f_equal. apply IH. intros b Hb. apply Hin. by right.
Qed.

Lemma summary_cities (dfy : list Row) :
  summary_city <$> df_aggregated coord_leb dfy
  = agg_city1 <$> aggregate coord_leb dfy.
Proof. rewrite df_aggregated_eq, <- list_fmap_compose. done. Qed.

Lemma summary_keys (dfy : list Row) :
  (λ s, agg_key (agg s)) <$> df_aggregated coord_leb dfy
  = group_keys (city_key_leb coord_leb) fst (dropna city_key dfy).
Proof.
  rewrite df_aggregated_eq, <- list_fmap_compose. apply aggregate_keys.
Qed.

(** The cities that get a colour. *)
Lemma elem_of_unique_cities (dfy : list Row) (c : string) :
  c ∈ unique_cities (df_aggregated coord_leb dfy)
  ↔ ∃ r, r ∈ dfy ∧ city1 r = c ∧ has_origin r.
Proof.
  unfold unique_cities. rewrite elem_of_unique, summary_cities.
  apply aggregate_city.
Qed.

(** ** The [route_counts] table *)

Lemma route_counts_of_keys routes (rs : list Row) :
  rc_key <$> route_counts_of coord_leb routes rs
  = group_keys (route_key_leb coord_leb) fst (dropna route_key (zip routes rs)).
Proof.
  unfold route_counts_of, groupby. rewrite <- !list_fmap_compose.
  rewrite <- (list_fmap_id (group_keys _ _ _)) at 2.
  apply list_fmap_ext. intros _ [[[rt la] lo] ap] _. done.
Qed.

Lemma route_counts_of_counts routes (rs : list Row) :
  rc_flight_count <$> route_counts_of coord_leb routes rs
  = (λ k, Z.of_nat (length (filter (λ p, p.1 = k)
                              (dropna route_key (zip routes rs)))))
    <$> group_keys (route_key_leb coord_leb) fst (dropna route_key (zip routes rs)).
Proof.
  unfold route_counts_of, groupby. rewrite <- !list_fmap_compose.
  apply list_fmap_ext. intros _ [[[rt la] lo] ap] _. done.
Qed.

Lemma route_counts_of_elem routes (rs : list Row) rc :
  rc ∈ route_counts_of coord_leb routes rs →
  rc_key rc ∈ group_keys (route_key_leb coord_leb) fst
                (dropna route_key (zip routes rs)) ∧
  rc_flight_count rc
  = Z.of_nat (length (filter (λ p, route_key p = Some (rc_key rc)) (zip routes rs))).
Proof.
  unfold route_counts_of, groupby. rewrite <- list_fmap_compose.
  intros (k & -> & Hk)%list_elem_of_fmap. split.
  - by destruct k as [[[rt la] lo] ap].
  - rewrite <- (dropna_group route_key), length_fmap.
    by destruct k as [[[rt la] lo] ap].
Qed.

(** Every group counts at least one row. *)
Lemma route_counts_of_pos routes (rs : list Row) rc :
  rc ∈ route_counts_of coord_leb routes rs → 1 ≤ rc_flight_count rc.
Proof.
  intros [Hk ->]%route_counts_of_elem.
  apply elem_of_group_keys in Hk as ([k p] & Hp & Hkp). simpl in Hkp. subst k.
  apply elem_of_dropna in Hp as [Hp Hkey].
  assert (p ∈ filter (λ p, route_key p = Some (rc_key rc)) (zip routes rs)) as Hin
    by by apply list_elem_of_filter.
  destruct (filter _ _); [by apply elem_of_nil in Hin|].
  rewrite length_cons. lia.
Qed.

Lemma zip_route_column (rs : list Row) :
  zip (route_of <$> rs) rs = (λ r, (route_of r, r)) <$> rs.
Proof. rewrite zip_with_fmap_l. apply zip_with_diag. Qed.

(** [route_counts] is empty exactly when no row of the table has its
    origin coordinates. *)
Lemma route_counts_of_nil (rs : list Row) :
  route_counts_of coord_leb (route_of <$> rs) rs = [] ↔
  ∀ r, r ∈ rs → ¬ has_origin r.
Proof.
  split.
  - intros Hnil. apply (f_equal (fmap rc_key)) in Hnil.
    rewrite route_counts_of_keys in Hnil. simpl in Hnil.
    apply group_keys_nil in Hnil.
    pose proof (proj1 (dropna_nil _ _) Hnil) as Hnone. clear Hnil.
    intros r Hr Ho. apply (has_origin_route_key r (route_of r)) in Ho as [k Hk].
    rewrite Hnone in Hk; [done|]. rewrite zip_route_column.
    by apply (list_elem_of_fmap_2 (λ r, (route_of r, r))).
  - intros Hall. unfold route_counts_of, groupby.
    assert (dropna route_key (zip (route_of <$> rs) rs) = []) as ->; [|done].
    apply dropna_nil. intros [rt r] Hin.
    rewrite zip_route_column in Hin.
    apply list_elem_of_fmap in Hin as (r' & [= -> ->] & Hr').
    destruct (route_key (route_of r', r')) eqn:Hk; [|done].
    exfalso. apply (Hall r' Hr'). apply (has_origin_route_key r' (route_of r')).
    by rewrite Hk.
Qed.

End Aggregation.

(** ** The outcome of [update_graph] *)

Lemma getitem_inr (d : gmap string string) (k v : string) :
  getitem d k = inr v ↔ d !! k = Some v.
Proof.
  unfold getitem. destruct (d !! k); split; intros H; try done.
  - by injection H as ->.
  - by injection H as ->.
Qed.

Lemma getitem_inl (d : gmap string string) (k : string) (e : PyError) :
  getitem d k = inl e ↔ d !! k = None ∧ e = KeyError k.
Proof.
  unfold getitem. destruct (d !! k); split; try done.
  - by intros [? ?].
  - by intros [= <-].
  - by intros [_ ->].
Qed.

Lemma NoDup_color_scale : NoDup color_scale.
Proof. by apply (bool_decide_unpack _). Qed.

Lemma city_colors_None (us : list string) (c : string) :
  city_colors us !! c = None ↔ c ∉ us.
Proof.
  induction us as [|u us IH] using rev_ind.
  { split; [intros _; apply not_elem_of_nil|done]. }
  rewrite city_colors_snoc, lookup_insert_None, IH, not_elem_of_app.
  rewrite not_elem_of_cons. split.
  - intros [? ?]. split; [done|]. split; [done|apply not_elem_of_nil].
  - intros [? [? _]]. split; done.
Qed.

Section Figure.
Context {coord F : Type} `{!EqDecision coord, !FloatOps F}.
Variable coord_leb : coord → coord → bool.

#[local] Abbreviation Row := (@Row coord).
#[local] Abbreviation DataFrame := (@DataFrame coord).
#[local] Abbreviation Figure := (@Figure coord F).
#[local] Abbreviation LineTrace := (@LineTrace coord).
#[local] Abbreviation MarkerTrace := (@MarkerTrace coord F).

Lemma marker_traces_data (m : MarkerTrace) (ls : list LineTrace) :
  marker_traces {| data := Markers m :: (Lines <$> ls) |} = [m].
Proof.
  unfold marker_traces. simpl. f_equal.
  induction ls as [|l ls IH]; [done|]. by rewrite fmap_cons.
Qed.

Lemma line_traces_data (m : MarkerTrace) (ls : list LineTrace) :
  line_traces {| data := Markers m :: (Lines <$> ls) |} = ls.
Proof.
  unfold line_traces. simpl.
  induction ls as [|l ls IH]; [done|]. rewrite fmap_cons. simpl. by f_equal.
Qed.

(** The filter reads the loaded columns only. *)
Lemma df_year_assign_route (df : DataFrame) ys cs :
  df_year ys cs (assign_route df) = df_year ys cs df.
Proof. reflexivity. Qed.

(** A row is drawn when its city has a colour. *)
Lemma line_trace_inr (colors : gmap string string) (r : Row) (t : LineTrace) :
  line_trace colors r = inr t ↔
  colors !! city1 r = Some (line_color t) ∧
  line_lon t = [start_lon r; end_lon r; None] ∧
  line_lat t = [start_lat r; end_lat r; None] ∧
  line_width t = 1 ∧ opacity t = (1 # 2)%Q.
Proof.
  unfold line_trace. destruct (getitem colors (city1 r)) as [e|c] eqn:Hc; simpl.
  - split; [done|]. intros (Hcol & _). apply getitem_inr in Hcol. congruence.
  - apply getitem_inr in Hc. split.
    + by intros [= <-].
    + intros (Hcol & Hlon & Hlat & Hw & Ho). rewrite Hc in Hcol.
      injection Hcol as ->. destruct t. simpl in *. by subst.
Qed.

Lemma line_trace_inl (colors : gmap string string) (r : Row) (e : PyError) :
  line_trace colors r = inl e ↔ colors !! city1 r = None ∧ e = KeyError (city1 r).
Proof.
  unfold line_trace. destruct (getitem colors (city1 r)) as [e'|c] eqn:Hc; simpl.
  - apply getitem_inl in Hc as [Hnone ->]. split; [by intros [= <-]|].
    by intros [_ ->].
  - apply getitem_inr in Hc. split; [done|]. intros [Hnone _]. congruence.
Qed.

(** The colour list of the marker trace never raises: the cities of the
    summary are the keys of the dictionary. *)
Lemma marker_colors (dfy : list Row) :
  ∃ cols,
    for_each (getitem (city_colors (unique_cities (df_aggregated coord_leb dfy))))
             (summary_city <$> df_aggregated coord_leb dfy) = inr cols ∧
    Forall2 (λ s col, city_colors (unique_cities (df_aggregated coord_leb dfy))
                        !! summary_city s = Some col)
            (df_aggregated coord_leb dfy) cols.
Proof.
  destruct (for_each_total
              (getitem (city_colors (unique_cities (df_aggregated coord_leb dfy))))
              (summary_city <$> df_aggregated coord_leb dfy)) as [cols Hcols].
  { intros c Hc.
    destruct (city_colors_elem (unique_cities (df_aggregated coord_leb dfy)) c)
      as (k & _ & Hk); [apply NoDup_unique|by apply elem_of_unique|].
    eexists. apply getitem_inr. exact Hk. }
  exists cols. split; [done|].
  apply for_each_Forall2 in Hcols. apply Forall2_fmap_l in Hcols.
  eapply Forall2_impl; [exact Hcols|]. intros s col H. by apply getitem_inr.
Qed.


Lemma update_graph_unfold (df : DataFrame) ys cs :
  (update_graph coord_leb df ys cs).2 =
  (m ← marker_trace (assigned_route_counts coord_leb df)
                    (summary_table coord_leb df ys cs)
                    (color_dict coord_leb df ys cs) ;
   ls ← for_each (line_trace (color_dict coord_leb df ys cs)) (df_year ys cs df) ;
   ret {| data := Markers m :: (Lines <$> ls) |}).
Proof. reflexivity. Qed.

Lemma assigned_route_counts_nil (df : DataFrame) :
  assigned_route_counts coord_leb df = [] ↔ ∀ r, r ∈ rows df → ¬ has_origin r.
Proof. apply route_counts_of_nil. Qed.

(** Without a row that has its origin coordinates [route_counts] is
    empty and [max] raises. *)
Lemma marker_trace_no_origin (df : DataFrame) ys cs :
  (∀ r, r ∈ rows df → ¬ has_origin r) →
  marker_trace (assigned_route_counts coord_leb df)
               (summary_table coord_leb df ys cs)
               (color_dict coord_leb df ys cs)
  = inl (ValueError "max() arg is an empty sequence").
Proof.
  intros Hnone. pose proof (proj2 (assigned_route_counts_nil df) Hnone) as Hnil.
  unfold marker_trace. rewrite Hnil. reflexivity.
Qed.

(** With such a row the marker trace is built. *)
Lemma marker_trace_origin (df : DataFrame) ys cs :
  (∃ r, r ∈ rows df ∧ has_origin r) →
  ∃ M cols,
    M ∈ rc_flight_count <$> assigned_route_counts coord_leb df ∧
    (∀ c, c ∈ rc_flight_count <$> assigned_route_counts coord_leb df → c ≤ M) ∧
    Forall2 (λ s col, color_dict coord_leb df ys cs !! summary_city s = Some col)
            (summary_table coord_leb df ys cs) cols ∧
    marker_trace (assigned_route_counts coord_leb df)
                 (summary_table coord_leb df ys cs)
                 (color_dict coord_leb df ys cs)
    = inr (marker_of coord_leb df ys cs M cols).
Proof.
  intros (r & Hr & Ho).
  destruct (py_max_spec (rc_flight_count <$> assigned_route_counts coord_leb df))
    as (M & HM & HMin & HMmax).
  { intros Hnil. apply fmap_nil_inv in Hnil.
    pose proof (proj1 (assigned_route_counts_nil df) Hnil) as Hnone.
    by apply (Hnone r). }
  destruct (marker_colors (df_year ys cs df)) as (cols & Hcols & Hall).
  exists M, cols. repeat split; try done.
  unfold marker_trace. rewrite HM. simpl.
  unfold color_dict, summary_table. rewrite Hcols. reflexivity.
Qed.

(** The outcome of the line loop. *)
Lemma line_loop_inr (df : DataFrame) ys cs :
  (∀ r, r ∈ df_year ys cs df →
        ∃ r', r' ∈ df_year ys cs df ∧ city1 r' = city1 r ∧ has_origin r') →
  ∃ ls, for_each (line_trace (color_dict coord_leb df ys cs)) (df_year ys cs df)
        = inr ls.
Proof.
  intros Hd. apply for_each_total. intros r Hr.
  destruct (Hd r Hr) as (r' & Hr' & Hc & Ho).
  destruct (city_colors_elem
              (unique_cities (summary_table coord_leb df ys cs)) (city1 r))
    as (k & _ & Hk).
  { apply NoDup_unique. }
  { apply elem_of_unique_cities. by exists r'. }
  apply getitem_inr in Hk. unfold line_trace, color_dict. rewrite Hk.
  eexists. reflexivity.
Qed.

Lemma line_loop_inl (df : DataFrame) ys cs e :
  for_each (line_trace (color_dict coord_leb df ys cs)) (df_year ys cs df) = inl e →
  ∃ r, r ∈ df_year ys cs df ∧ e = KeyError (city1 r) ∧
       ∀ r', r' ∈ df_year ys cs df → city1 r' = city1 r → ¬ has_origin r'.
Proof.
  intros (r & Hr & He)%for_each_inl. apply line_trace_inl in He as [Hnone ->].
  exists r. repeat split; [done|]. intros r' Hr' Hc Ho.
  apply city_colors_None in Hnone. apply Hnone.
  apply elem_of_unique_cities. by exists r'.
Qed.

(** On a drawable selection [update_graph] returns the figure. *)
Lemma update_graph_returns (df : DataFrame) ys cs :
  drawable df ys cs →
  ∃ M cols ls,
    M ∈ rc_flight_count <$> assigned_route_counts coord_leb df ∧
    (∀ c, c ∈ rc_flight_count <$> assigned_route_counts coord_leb df → c ≤ M) ∧
    Forall2 (λ s col, color_dict coord_leb df ys cs !! summary_city s = Some col)
            (summary_table coord_leb df ys cs) cols ∧
    Forall2 (λ r t, line_trace (color_dict coord_leb df ys cs) r = inr t)
            (df_year ys cs df) ls ∧
    (update_graph coord_leb df ys cs).2
    = inr {| data := Markers (marker_of coord_leb df ys cs M cols)
                     :: (Lines <$> ls) |}.
Proof.
  intros [Ho Hd].
  destruct (marker_trace_origin df ys cs Ho) as (M & cols & HM & Hmax & Hcols & Hm).
  destruct (line_loop_inr df ys cs Hd) as [ls Hls].
  exists M, cols, ls. repeat split; try done.
  - by apply for_each_Forall2.
  - rewrite update_graph_unfold, Hm. simpl. rewrite Hls. reflexivity.
Qed.

(** The exceptions of [update_graph]. *)
Lemma update_graph_no_origin (df : DataFrame) ys cs :
  (∀ r, r ∈ rows df → ¬ has_origin r) →
  (update_graph coord_leb df ys cs).2
  = inl (ValueError "max() arg is an empty sequence").
Proof.
  intros Hnone. rewrite update_graph_unfold, marker_trace_no_origin by done.
  reflexivity.
Qed.

Lemma update_graph_origin_inl (df : DataFrame) ys cs e :
  (∃ r, r ∈ rows df ∧ has_origin r) →
  (update_graph coord_leb df ys cs).2 = inl e →
  ∃ r, r ∈ df_year ys cs df ∧ e = KeyError (city1 r) ∧
       ∀ r', r' ∈ df_year ys cs df → city1 r' = city1 r → ¬ has_origin r'.
Proof.
  intros Ho. destruct (marker_trace_origin df ys cs Ho) as (M & cols & _ & _ & _ & Hm).
  rewrite update_graph_unfold, Hm. simpl.
  destruct (for_each _ (df_year ys cs df)) as [e'|ls] eqn:Hls; simpl; [|done].
  intros [= <-]. by apply line_loop_inl.
Qed.

Lemma update_graph_inr_drawable (df : DataFrame) ys cs fig :
  (update_graph coord_leb df ys cs).2 = inr fig → drawable df ys cs.
Proof.
  intros Hfig.
  destruct (decide (Exists has_origin (rows df))) as [Hex|Hnex].
  - apply Exists_exists in Hex. split; [done|]. intros r Hr.
    destruct (decide (Exists (λ r', city1 r' = city1 r ∧ has_origin r')
                             (df_year ys cs df))) as [Hex'|Hnex'].
    + apply Exists_exists in Hex' as (r' & ? & ? & ?). by exists r'.
    + exfalso. destruct (marker_trace_origin df ys cs Hex)
        as (M & cols & _ & _ & _ & Hm).
      rewrite update_graph_unfold, Hm in Hfig. simpl in Hfig.
      destruct (for_each _ (df_year ys cs df)) as [e'|ls] eqn:Hls; simpl in Hfig;
        [done|].
      apply for_each_Forall2 in Hls.
      destruct (proj1 (list_elem_of_lookup _ _) Hr) as [i Hi].
      destruct (Forall2_lookup_l _ _ _ _ _ Hls Hi) as (t & _ & Ht).
      apply line_trace_inr in Ht as (Hcol & _).
      assert (city1 r ∈ unique_cities (summary_table coord_leb df ys cs)) as Hin.
      { destruct (decide (city1 r ∈ unique_cities (summary_table coord_leb df ys cs)))
          as [?|Hnin]; [done|].
        apply city_colors_None in Hnin. unfold color_dict in Hcol. congruence. }
      apply elem_of_unique_cities in Hin as (r' & ? & ? & ?).
      apply Hnex'. apply Exists_exists. by exists r'.
  - exfalso. rewrite update_graph_no_origin in Hfig; [done|].
    intros r Hr Ho. apply Hnex. apply Exists_exists. by exists r.
Qed.

End Figure.

(** ** Lemmas on filters *)

Lemma filter_fmap {A B} (f : A → B) (P : B → Prop) `{!∀ b, Decision (P b)}
    (l : list A) :
  filter P (f <$> l) = f <$> filter (λ a, P (f a)) l.
Proof.
  induction l as [|a l IH]; [done|].
  rewrite fmap_cons, !filter_cons. destruct (decide (P (f a))); [|done].
  by rewrite fmap_cons, IH.
Qed.

Lemma filter_ext_elem {A} (P1 P2 : A → Prop)
    `{!∀ x, Decision (P1 x), !∀ x, Decision (P2 x)} (l : list A) :
  (∀ x, x ∈ l → P1 x ↔ P2 x) → filter P1 l = filter P2 l.
Proof.
  induction l as [|a l IH]; intros Hiff; [done|].
  assert (filter P1 l = filter P2 l) as Hl
    by (apply IH; intros x Hx; apply Hiff; by right).
  assert (P1 a ↔ P2 a) as Ha by (apply Hiff; left).
  rewrite !filter_cons, Hl.
  destruct (decide (P1 a)), (decide (P2 a)); tauto.
Qed.

Lemma NoDup_constant_length {A} (l : list A) (k : A) :
  NoDup l → (∀ x, x ∈ l → x = k) → k ∈ l → length l = 1%nat.
Proof.
  intros Hnd Hall Hin. destruct l as [|a [|b l]]; [by apply elem_of_nil in Hin|done|].
  exfalso. apply NoDup_cons in Hnd as [Hnin _]. apply Hnin.
  rewrite (Hall a), <- (Hall b); [left|right; left|left].
Qed.

Lemma resolve_all {A} `{!EqDecision A} (sel : option (list A)) (all col : list A) :
  sel = None ∨ sel = Some [] →
  (∀ x, x ∈ all ↔ x ∈ col) →
  ∀ x, x ∈ resolve sel (unique col) ↔ x ∈ resolve (Some all) (unique col).
Proof.
  intros Hsel Hall x.
  assert (resolve sel (unique col) = unique col) as ->
    by (by destruct Hsel as [-> | ->]).
  unfold resolve. destruct (decide (length all = 0%nat)); [done|].
  by rewrite elem_of_unique, Hall.
Qed.

(** ** The selection, the table and the colours of a call *)

Section Callback.
Context {coord F : Type} `{!EqDecision coord, !FloatOps F}.
Variable coord_leb : coord → coord → bool.

#[local] Abbreviation Row := (@Row coord).
#[local] Abbreviation DataFrame := (@DataFrame coord).

(** A selection that resolves to the same values filters the same rows. *)
Lemma df_year_ext (df : DataFrame) ys cs ys' cs' :
  (∀ y, y ∈ years_of ys df ↔ y ∈ years_of ys' df) →
  (∀ c, c ∈ cities_of cs df ↔ c ∈ cities_of cs' df) →
  df_year ys cs df = df_year ys' cs' df.
Proof.
  intros Hy Hc. unfold df_year. apply list_filter_iff.
  intros r. unfold selected. by rewrite Hy, Hc.
Qed.

(** The figure depends on the selection through the filtered rows only. *)
Lemma update_graph_df_year (df : DataFrame) ys cs ys' cs' :
  df_year ys cs df = df_year ys' cs' df →
  update_graph (F:=F) coord_leb df ys cs = update_graph coord_leb df ys' cs'.
Proof.
  intros Heq. unfold update_graph, build_figure.
  rewrite !df_year_assign_route, Heq. done.
Qed.

(** C2. When [ys_all] lists every year of the table and [cs_all] every
    origin city, a call with an absent or an empty year selection
    computes the same summary and returns the same table and figure as
    the call with [ys_all], whatever the city selection; and likewise
    for an absent or empty city selection and [cs_all]. *)
Theorem empty_selection_selects_all (df : DataFrame) ys_all cs_all ys cs :
  (∀ y, y ∈ ys_all ↔ y ∈ Year <$> rows df) →
  (∀ c, c ∈ cs_all ↔ c ∈ city1 <$> rows df) →
  (∀ sel, sel = None ∨ sel = Some [] →
     summary_table coord_leb df sel cs = summary_table coord_leb df (Some ys_all) cs ∧
     update_graph (F:=F) coord_leb df sel cs
     = update_graph coord_leb df (Some ys_all) cs) ∧
  (∀ sel, sel = None ∨ sel = Some [] →
     summary_table coord_leb df ys sel = summary_table coord_leb df ys (Some cs_all) ∧
     update_graph (F:=F) coord_leb df ys sel
     = update_graph coord_leb df ys (Some cs_all)).
Proof.
  intros Hys Hcs. split; intros sel Hsel.
  - assert (df_year sel cs df = df_year (Some ys_all) cs df) as Heq.
    { apply df_year_ext; [|done]. by apply resolve_all. }
    split; [unfold summary_table; by rewrite Heq|by apply update_graph_df_year].
  - assert (df_year ys sel df = df_year ys (Some cs_all) df) as Heq.
    { apply df_year_ext; [done|]. by apply resolve_all. }
    split; [unfold summary_table; by rewrite Heq|by apply update_graph_df_year].
Qed.

(** C7, as the code has it. A call leaves every loaded column as it was
    and sets the [route] column to the sorted city pair of each row; a
    call on the table so obtained changes nothing, and returns what the
    call on the freshly loaded table returns. *)
Theorem update_graph_frame (df : DataFrame) ys cs :
  rows (update_graph (F:=F) coord_leb df ys cs).1 = rows df ∧
  route (update_graph (F:=F) coord_leb df ys cs).1 = Some (route_of <$> rows df) ∧
  ∀ ys' cs',
    update_graph (F:=F) coord_leb (update_graph (F:=F) coord_leb df ys cs).1 ys' cs'
    = ((update_graph (F:=F) coord_leb df ys cs).1,
       (update_graph coord_leb df ys' cs').2).
Proof. done. Qed.

(** C4. Within one call, the distinct cities of the summary are listed
    without repetition in first-seen order and each has exactly one
    colour, the palette colour of its position in that list taken modulo
    the palette length; in the figure the call returns, the marker trace
    colours every summary row with the colour of its city and every line
    trace has the colour of the origin city of its row, both read from
    that one dictionary; and on a drawable selection the call does
    return a figure. *)
Theorem city_color_consistent (df : DataFrame) ys cs :
  unique_cities (summary_table coord_leb df ys cs)
  = unique (summary_city <$> summary_table coord_leb df ys cs) ∧
  NoDup (unique_cities (summary_table coord_leb df ys cs)) ∧
  (∀ c, c ∈ summary_city <$> summary_table coord_leb df ys cs →
     ∃ k, unique_cities (summary_table coord_leb df ys cs) !! k = Some c ∧
          color_dict coord_leb df ys cs !! c
          = Some (color_scale !!! (k `mod` length color_scale)%nat)) ∧
  (∀ fig, (update_graph (F:=F) coord_leb df ys cs).2 = inr fig →
     ∃ m, marker_traces fig = [m] ∧
       Forall2 (λ s col, color_dict coord_leb df ys cs !! summary_city s = Some col)
         (summary_table coord_leb df ys cs) (marker_color m) ∧
       Forall2 (λ r t, color_dict coord_leb df ys cs !! city1 r
                       = Some (line_color t))
         (df_year ys cs df) (line_traces fig)) ∧
  (drawable df ys cs →
   ∃ fig, (update_graph (F:=F) coord_leb df ys cs).2 = inr fig).
Proof.
  split; [done|]. split; [apply NoDup_unique|]. split.
  { intros c Hc. apply city_colors_elem; [apply NoDup_unique|].
    unfold unique_cities. by apply elem_of_unique. }
  assert (drawable df ys cs →
          ∃ M cols ls,
            Forall2 (λ s col, color_dict coord_leb df ys cs !! summary_city s
                              = Some col)
              (summary_table coord_leb df ys cs) cols ∧
            Forall2 (λ r t, color_dict coord_leb df ys cs !! city1 r
                            = Some (line_color t))
              (df_year ys cs df) ls ∧
            (update_graph (F:=F) coord_leb df ys cs).2
            = inr {| data := Markers (marker_of coord_leb df ys cs M cols)
                             :: (Lines <$> ls) |}) as Hret.
  { intros Hd.
    destruct (update_graph_returns coord_leb df ys cs Hd)
      as (M & cols & ls & _ & _ & Hcols & Hls & Hfig).
    exists M, cols, ls. split; [exact Hcols|]. split; [|exact Hfig].
    eapply Forall2_impl; [exact Hls|]. intros r t Ht.
    apply line_trace_inr in Ht. tauto. }
  split.
  - intros fig Hfig.
    destruct (Hret (update_graph_inr_drawable coord_leb df ys cs fig Hfig))
      as (M & cols & ls & Hcols & Hls & Hfig').
    rewrite Hfig' in Hfig. injection Hfig as <-.
    eexists. rewrite marker_traces_data, line_traces_data. done.
  - intros Hd. destruct (Hret Hd) as (M & cols & ls & _ & _ & Hfig).
    by eexists.
Qed.

(** The counts of [route_counts]: one row per composite key among the
    table rows that have their origin coordinates. *)
Lemma assigned_route_counts_keys (df : DataFrame) :
  NoDup (rc_key <$> assigned_route_counts coord_leb df) ∧
  ∀ k, k ∈ rc_key <$> assigned_route_counts coord_leb df
       ↔ ∃ r, r ∈ rows df ∧ row_route_key r = Some k.
Proof.
  unfold assigned_route_counts. rewrite route_counts_of_keys, zip_route_column.
  split; [apply NoDup_group_keys|].
  intros k. rewrite elem_of_group_keys. split.
  - intros ([k' p] & Hin & <-). apply elem_of_dropna in Hin as [Hp Hk].
    apply list_elem_of_fmap in Hp as (r & -> & Hr). by exists r.
  - intros (r & Hr & Hk). exists (k, (route_of r, r)). split; [|done].
    apply elem_of_dropna. split; [|done].
    by apply (list_elem_of_fmap_2 (λ r, (route_of r, r))).
Qed.

Lemma assigned_route_counts_count (df : DataFrame) rc :
  rc ∈ assigned_route_counts coord_leb df →
  rc_flight_count rc
  = Z.of_nat (length (filter (λ r, row_route_key r = Some (rc_key rc)) (rows df))).
Proof.
  intros [_ ->]%route_counts_of_elem. rewrite zip_route_column.
  rewrite (filter_fmap (λ r, (route_of r, r))), length_fmap. done.
Qed.

(** X28. On a drawable selection the size column of the marker trace
    holds the flight counts of [route_counts]: one entry per distinct
    key of route, origin latitude, origin longitude and airport among
    all the table rows that have their origin coordinates, whatever the
    selection, each the number of table rows with that key.  Every entry
    is at least one and at most the largest entry [M], [sizeref] is the
    float [2.*M/(15.**2)], and of two entries the one of the row of
    [route_counts] with the strictly greater flight count is strictly
    greater. *)
Theorem marker_size_per_route_count_row (df : DataFrame) ys cs :
  drawable df ys cs →
  ∃ fig m M, (update_graph (F:=F) coord_leb df ys cs).2 = inr fig ∧
    marker_traces fig = [m] ∧
    marker_size m = rc_flight_count <$> assigned_route_counts coord_leb df ∧
    NoDup (rc_key <$> assigned_route_counts coord_leb df) ∧
    (∀ rc, rc ∈ assigned_route_counts coord_leb df →
       rc_flight_count rc
       = Z.of_nat (length (filter (λ r, row_route_key r = Some (rc_key rc))
                                  (rows df)))) ∧
    M ∈ marker_size m ∧ (∀ c, c ∈ marker_size m → 1 ≤ c ≤ M) ∧
    marker_sizeref m = sizeref_of M ∧
    ∀ i j a b,
      assigned_route_counts coord_leb df !! i = Some a →
      assigned_route_counts coord_leb df !! j = Some b →
      rc_flight_count a < rc_flight_count b →
      ∃ sa sb, marker_size m !! i = Some sa ∧ marker_size m !! j = Some sb ∧
               sa < sb.
Proof.
  intros Hd.
  destruct (update_graph_returns coord_leb df ys cs Hd)
    as (M & cols & ls & HM & Hmax & _ & _ & Hfig).
  eexists _, _, M. split; [exact Hfig|]. rewrite marker_traces_data.
  split; [done|]. cbn [marker_of marker_size marker_sizeref].
  split; [done|]. split; [apply assigned_route_counts_keys|].
  split; [apply assigned_route_counts_count|].
  split; [done|]. split.
  { intros c Hc. split; [|by apply Hmax].
    apply list_elem_of_fmap in Hc as (rc & -> & Hrc).
    by eapply route_counts_of_pos. }
  split; [done|].
  intros i j a b Ha Hb Hlt. exists (rc_flight_count a), (rc_flight_count b).
  rewrite !list_lookup_fmap, Ha, Hb. done.
Qed.

End Callback.

(** * Further properties of the program *)


(** ** Lemmas on string order *)

Lemma ascii_compare_refl (a : ascii) : Ascii.compare a a = Eq.
Proof. apply N.compare_refl. Qed.

Lemma ascii_compare_lt_trans (a b c : ascii) :
  Ascii.compare a b = Lt → Ascii.compare b c = Lt → Ascii.compare a c = Lt.
Proof.
  unfold Ascii.compare. rewrite !N.compare_lt_iff. apply N.lt_trans.
Qed.

Lemma string_compare_refl (s : string) : String.compare s s = Eq.
Proof.
  induction s as [|a s IH]; [done|]. simpl. by rewrite ascii_compare_refl.
Qed.

Lemma string_compare_lt_trans (s1 s2 s3 : string) :
  String.compare s1 s2 = Lt → String.compare s2 s3 = Lt →
  String.compare s1 s3 = Lt.
Proof.
  revert s2 s3. induction s1 as [|a s1 IH]; intros [|b s2] [|c s3]; simpl;
    try done.
  destruct (Ascii.compare a b) eqn:Hab; [|idtac|done].
  - apply Ascii.compare_eq_iff in Hab as ->.
    destruct (Ascii.compare b c) eqn:Hbc; [apply IH|done|done].
  - destruct (Ascii.compare b c) eqn:Hbc; [|idtac|done].
    + apply Ascii.compare_eq_iff in Hbc as <-. by rewrite Hab.
    + by rewrite (ascii_compare_lt_trans a b c).
Qed.

Lemma string_leb_iff (s1 s2 : string) :
  String.leb s1 s2 = true ↔ String.compare s1 s2 = Lt ∨ s1 = s2.
Proof.
  unfold String.leb. split.
  - destruct (String.compare s1 s2) eqn:Hc; [|by left|done].
    right. by apply String.compare_eq_iff.
  - intros [->| ->]; [done|]. by rewrite string_compare_refl.
Qed.

Lemma string_leb_trans (s1 s2 s3 : string) :
  String.leb s1 s2 = true → String.leb s2 s3 = true → String.leb s1 s3 = true.
Proof.
  rewrite !string_leb_iff. intros [H12| ->] [H23| ->]; auto.
  left. by eapply string_compare_lt_trans.
Qed.

(** ** The route column *)

Lemma sorted_pair_comm (a b : string) : sorted_pair a b = sorted_pair b a.
Proof.
  unfold sorted_pair, String.ltb. rewrite (String.compare_antisym a b).
  destruct (String.compare b a) eqn:Hc; simpl; try done.
  by apply String.compare_eq_iff in Hc as ->.
Qed.

Lemma sorted_pair_ordered (a b : string) :
  String.leb (sorted_pair a b).1 (sorted_pair a b).2 = true.
Proof.
  unfold sorted_pair, String.ltb, String.leb.
  destruct (String.compare b a) eqn:Hc; simpl.
  - rewrite String.compare_antisym, Hc. done.
  - by rewrite Hc.
  - rewrite String.compare_antisym, Hc. done.
Qed.

Section RouteColumn.
Context {coord : Type}.

(** X1. The route key does not depend on the direction of a flight: two
    rows whose city pairs are each other's reverse get the same key, the
    key holds the row's two cities, smaller name first. *)
Theorem route_key_unordered (r r' : @Row coord) :
  city1 r' = city2 r → city2 r' = city1 r →
  route_of r' = route_of r ∧
  String.leb (route_of r).1 (route_of r).2 = true ∧
  (route_of r = (city1 r, city2 r) ∨ route_of r = (city2 r, city1 r)).
Proof.
  intros H1 H2. unfold route_of. rewrite H1, H2. split; [apply sorted_pair_comm|].
  split; [apply sorted_pair_ordered|].
  unfold sorted_pair. destruct (String.ltb _ _); [by right|by left].
Qed.

End RouteColumn.


(** ** The filter *)

Lemma resolve_passes {A} `{!EqDecision A} (sel : option (list A)) (col : list A) x :
  x ∈ col → (x ∈ resolve sel (unique col) ↔ passes sel x).
Proof.
  intros Hx. destruct sel as [[|y l]|]; simpl.
  - by rewrite elem_of_unique.
  - done.
  - by rewrite elem_of_unique.
Qed.

Section Filter.
Context {coord F : Type} `{!EqDecision coord, !FloatOps F}.
Variable coord_leb : coord → coord → bool.

#[local] Abbreviation Row := (@Row coord).
#[local] Abbreviation DataFrame := (@DataFrame coord).

(** X2. The filtered rows are the table filtered, in table order and with
    repetitions kept, by the two dropdown values, where an absent or
    empty value lets every row through and any other value lets through
    the rows whose year, or origin city, it lists. *)
Theorem df_year_passes (df : DataFrame) ys cs :
  df_year ys cs df
  = filter (λ r, passes ys (Year r) ∧ passes cs (city1 r)) (rows df).
Proof.
  unfold df_year. apply filter_ext_elem. intros r Hr.
  unfold selected, years_of, cities_of.
  rewrite !resolve_passes by by apply list_elem_of_fmap_2.
  done.
Qed.

(** X3. Only the set of selected values matters: two selections with the
    same elements, in any order and with any repetitions, give the same
    table and the same figure. *)
Theorem selection_order_irrelevant (df : DataFrame) ys ys' cs cs' :
  (∀ y, y ∈ ys ↔ y ∈ ys') → (∀ c, c ∈ cs ↔ c ∈ cs') →
  update_graph (F:=F) coord_leb df (Some ys) (Some cs)
  = update_graph coord_leb df (Some ys') (Some cs').
Proof.
  intros Hy Hc. apply update_graph_df_year, df_year_ext.
  - intros y. unfold years_of, resolve.
    destruct ys as [|a ys], ys' as [|a' ys']; simpl; try done.
    + exfalso. eapply elem_of_nil, Hy. left.
    + exfalso. eapply elem_of_nil, Hy. left.
  - intros c. unfold cities_of, resolve.
    destruct cs as [|a cs], cs' as [|a' cs']; simpl; try done.
    + exfalso. eapply elem_of_nil, Hc. left.
    + exfalso. eapply elem_of_nil, Hc. left.
Qed.

End Filter.

(** ** The flight counts and the hover text of the summary *)

Lemma value_counts_keys {A} `{!EqDecision A} (l : list A) :
  (value_counts l).*1 = unique l.
Proof.
  unfold value_counts. rewrite <- list_fmap_compose.
  etrans; [|apply list_fmap_id]. by apply list_fmap_ext.
Qed.

Lemma value_counts_counts {A} `{!EqDecision A} (l : list A) :
  (value_counts l).*2
  = (λ x, Z.of_nat (length (filter (λ y, id y = x) l))) <$> unique l.
Proof. unfold value_counts. by rewrite <- list_fmap_compose. Qed.

Section SummaryColumns.
Context {coord : Type} `{!EqDecision coord}.
Variable coord_leb : coord → coord → bool.

#[local] Abbreviation DataFrame := (@DataFrame coord).

(** X4. The [flight_count] table has one row per distinct origin city of
    the filtered rows, every count is at least one, and the counts add up
    to the number of filtered rows. *)
Theorem flight_count_table_total (df : DataFrame) ys cs :
  NoDup (value_counts (city1 <$> df_year ys cs df)).*1 ∧
  (∀ c, c ∈ (value_counts (city1 <$> df_year ys cs df)).*1
        ↔ c ∈ city1 <$> df_year ys cs df) ∧
  (∀ n, n ∈ (value_counts (city1 <$> df_year ys cs df)).*2 → 1 ≤ n) ∧
  sum_Z (value_counts (city1 <$> df_year ys cs df)).*2
  = Z.of_nat (length (df_year ys cs df)).
Proof.
  rewrite value_counts_keys, value_counts_counts.
  split; [apply NoDup_unique|]. split; [intros c; apply elem_of_unique|].
  split.
  - intros n (c & -> & Hc)%list_elem_of_fmap. rewrite elem_of_unique in Hc.
    assert (c ∈ filter (λ y, id y = c) (city1 <$> df_year ys cs df)) as Hin.
    { apply list_elem_of_filter. split; [reflexivity|exact Hc]. }
    destruct (filter _ _); [by apply elem_of_nil in Hin|].
    rewrite length_cons. lia.
  - rewrite (length_groups id).
    + by rewrite length_fmap.
    + apply NoDup_unique.
    + intros c Hc. by apply elem_of_unique.
Qed.

(** X5. Every summary row carries a flight count (the join never leaves
    the cell empty): the number of filtered rows of the row's city, with
    any origin coordinates, which is at least one; and its hover text is
    built from that count. *)
Theorem flight_count_is_city_total (df : DataFrame) ys cs s :
  s ∈ summary_table coord_leb df ys cs →
  flight_count s
  = Some (Z.of_nat (length (filter (λ r, city1 r = summary_city s)
                              (df_year ys cs df)))) ∧
  (∃ n, flight_count s = Some n ∧ 1 ≤ n) ∧
  hover_text s = hover (agg s) (flight_count s).
Proof.
  unfold summary_table. rewrite df_aggregated_eq.
  intros (a & -> & Ha)%list_elem_of_fmap.
  assert (city_rows (df_year ys cs df) (agg_city1 a)
          = Z.of_nat (length (filter (λ r, city1 r = agg_city1 a)
                                (df_year ys cs df)))) as Hcount.
  { unfold city_rows. by rewrite filter_fmap, length_fmap. }
  unfold summary_city. cbn [agg flight_count hover_text summary_of].
  rewrite Hcount. split; [done|]. split; [|done].
  eexists. split; [done|].
  assert (agg_city1 a ∈ city1 <$> df_year ys cs df) as Hc.
  { by apply (aggregate_city_filtered coord_leb). }
  apply list_elem_of_fmap in Hc as (r & Hr & Hin).
  assert (r ∈ filter (λ r, city1 r = agg_city1 a) (df_year ys cs df)) as Hf
    by by apply list_elem_of_filter.
  destruct (filter _ _); [by apply elem_of_nil in Hf|].
  rewrite length_cons. lia.
Qed.

End SummaryColumns.

(** ** The figure of a drawable selection *)

Lemma length_dropna_filter {A K} (key : A → option K) (l : list A) :
  length (dropna key l) = length (filter (λ a, is_Some (key a)) l).
Proof.
  induction l as [|a l IH]; [done|].
  rewrite dropna_cons, filter_cons. destruct (key a) as [k|] eqn:Hk.
  - rewrite decide_True by by eexists. simpl. by rewrite IH.
  - rewrite decide_False by by intros [? ?]. done.
Qed.

Section FigureShape.
Context {coord F : Type} `{!EqDecision coord, !FloatOps F}.
Variable coord_leb : coord → coord → bool.

#[local] Abbreviation Row := (@Row coord).
#[local] Abbreviation DataFrame := (@DataFrame coord).

Lemma route_counts_of_le routes (rs : list Row) rc :
  rc ∈ route_counts_of coord_leb routes rs →
  rc_flight_count rc ≤ Z.of_nat (length rs).
Proof.
  intros [_ ->]%route_counts_of_elem.
  pose proof (length_filter (λ p, route_key p = Some (rc_key rc)) (zip routes rs))
    as Hle.
  rewrite length_zip_with in Hle. lia.
Qed.

(** X6. On a drawable selection the figure holds the marker trace and
    then one line trace per filtered row, in row order: the line of a row
    runs from the row's origin cells to its destination cells and ends
    with an empty cell, has width 1 and opacity 0.5, and has the colour
    the dictionary gives the row's origin city.  The marker trace has one
    point per summary row, at that row's origin, and one colour per
    point, while its size column has one entry per row of
    [route_counts]. *)
Theorem marker_points_are_summary_rows (df : DataFrame) ys cs :
  drawable df ys cs →
  ∃ fig m ls, (update_graph (F:=F) coord_leb df ys cs).2 = inr fig ∧
    data fig = Markers m :: (Lines <$> ls) ∧
    line_traces fig = ls ∧
    length ls = length (df_year ys cs df) ∧
    Forall2 (λ r t,
        line_lon t = [start_lon r; end_lon r; None] ∧
        line_lat t = [start_lat r; end_lat r; None] ∧
        line_width t = 1 ∧ opacity t = (1 # 2)%Q ∧
        color_dict coord_leb df ys cs !! city1 r = Some (line_color t))
      (df_year ys cs df) ls ∧
    lon m = (λ s, agg_start_lon (agg s)) <$> summary_table coord_leb df ys cs ∧
    lat m = (λ s, agg_start_lat (agg s)) <$> summary_table coord_leb df ys cs ∧
    text m = hover_text <$> summary_table coord_leb df ys cs ∧
    length (marker_color m) = length (summary_table coord_leb df ys cs) ∧
    length (marker_size m) = length (assigned_route_counts coord_leb df).
Proof.
  intros Hd.
  destruct (update_graph_returns coord_leb df ys cs Hd)
    as (M & cols & ls & _ & _ & Hcols & Hls & Hfig).
  eexists _, _, ls. split; [exact Hfig|]. split; [done|].
  rewrite line_traces_data. split; [done|].
  split; [symmetry; exact (Forall2_length _ _ _ Hls)|].
  split.
  { eapply Forall2_impl; [exact Hls|]. intros r t Ht.
    apply line_trace_inr in Ht. tauto. }
  cbn [marker_of lon lat text marker_color marker_size].
  split; [done|]. split; [done|]. split; [done|].
  split; [by rewrite <- (Forall2_length _ _ _ Hcols)|].
  by rewrite length_fmap.
Qed.

(** X7. The marker sizes do not follow the selection: two drawable
    selections on one table give the same size column and the same
    [sizeref], and every size is a count between one and the number of
    table rows. *)
Theorem marker_sizes_ignore_selection (df : DataFrame) ys cs ys' cs' :
  drawable df ys cs → drawable df ys' cs' →
  ∃ fig fig' m m',
    (update_graph (F:=F) coord_leb df ys cs).2 = inr fig ∧
    (update_graph (F:=F) coord_leb df ys' cs').2 = inr fig' ∧
    marker_traces fig = [m] ∧ marker_traces fig' = [m'] ∧
    marker_size m = marker_size m' ∧
    marker_sizeref m = marker_sizeref m' ∧
    ∀ n, n ∈ marker_size m → 1 ≤ n ≤ Z.of_nat (length (rows df)).
Proof.
  intros Hd Hd'.
  destruct (update_graph_returns coord_leb df ys cs Hd)
    as (M & cols & ls & HM & Hmax & _ & _ & Hfig).
  destruct (update_graph_returns coord_leb df ys' cs' Hd')
    as (M' & cols' & ls' & HM' & Hmax' & _ & _ & Hfig').
  assert (M = M') as <-.
  { apply Z.le_antisymm; [by apply Hmax'|by apply Hmax]. }
  eexists _, _, _, _. split; [exact Hfig|]. split; [exact Hfig'|].
  rewrite !marker_traces_data. split; [done|]. split; [done|].
  split; [done|]. split; [done|].
  intros n (rc & -> & Hrc)%list_elem_of_fmap. split.
  - by eapply route_counts_of_pos.
  - by eapply route_counts_of_le.
Qed.

(** X24. When some table row has its origin coordinates, a selection that
    no row satisfies raises nothing: the figure holds the marker trace
    alone, without a point, a hover text or a colour, and no line trace;
    the size column of that trace is not empty, it holds the flight
    counts of the whole table. *)
Theorem no_match_gives_empty_map (df : DataFrame) ys cs :
  (∃ r, r ∈ rows df ∧ has_origin r) →
  df_year ys cs df = [] →
  ∃ fig m, (update_graph (F:=F) coord_leb df ys cs).2 = inr fig ∧
    data fig = [Markers m] ∧
    lon m = [] ∧ lat m = [] ∧ text m = [] ∧ marker_color m = [] ∧
    line_traces fig = [] ∧
    marker_size m = rc_flight_count <$> assigned_route_counts coord_leb df ∧
    marker_size m ≠ [].
Proof.
  intros Ho Hnone.
  assert (drawable df ys cs) as Hd.
  { split; [done|]. rewrite Hnone. intros r Hr. by apply elem_of_nil in Hr. }
  destruct (update_graph_returns coord_leb df ys cs Hd)
    as (M & cols & ls & HM & _ & Hcols & Hls & Hfig).
  unfold summary_table in Hcols. unfold marker_of, summary_table in Hfig.
  rewrite Hnone in Hcols, Hls, Hfig.
  apply Forall2_nil_inv_l in Hls as ->.
  change (df_aggregated coord_leb []) with (@nil (@Summary coord)) in Hcols, Hfig.
  apply Forall2_nil_inv_l in Hcols as ->.
  eexists _, _. split; [exact Hfig|]. cbn.
  repeat (split; [done|]). intros Hnil. cbn [marker_size] in Hnil.
  rewrite Hnil in HM.
  by apply elem_of_nil in HM.
Qed.

(** X10. The keys of the colour dictionary are the origin cities of the
    filtered rows that have their origin coordinates; a lookup of any
    other city raises [KeyError]. *)
Theorem color_dict_keys (df : DataFrame) ys cs (c : string) :
  (is_Some (color_dict coord_leb df ys cs !! c)
   ↔ ∃ r, r ∈ df_year ys cs df ∧ city1 r = c ∧ has_origin r) ∧
  (getitem (color_dict coord_leb df ys cs) c = inl (KeyError c)
   ↔ ¬ ∃ r, r ∈ df_year ys cs df ∧ city1 r = c ∧ has_origin r).
Proof.
  assert (color_dict coord_leb df ys cs !! c = None
          ↔ ¬ ∃ r, r ∈ df_year ys cs df ∧ city1 r = c ∧ has_origin r) as HNone.
  { unfold color_dict, summary_table.
    by rewrite city_colors_None, elem_of_unique_cities. }
  split.
  - rewrite <- not_eq_None_Some, HNone.
    destruct (decide (Exists (λ r, city1 r = c ∧ has_origin r) (df_year ys cs df)))
      as [Hex|Hnex]; rewrite Exists_exists in *; tauto.
  - rewrite <- HNone, getitem_inl. tauto.
Qed.

(** X11. The outcome of a call.  A figure is returned exactly on a
    drawable selection.  [max] raises its [ValueError] exactly when no
    table row has its origin coordinates, whatever the selection.  Any
    other exception is the [KeyError] of the colour lookup, for the
    origin city of a filtered row none of whose filtered rows has its
    origin coordinates. *)
Theorem update_graph_outcome (df : DataFrame) ys cs :
  ((∃ fig, (update_graph (F:=F) coord_leb df ys cs).2 = inr fig)
   ↔ drawable df ys cs) ∧
  ((update_graph (F:=F) coord_leb df ys cs).2
   = inl (ValueError "max() arg is an empty sequence")
   ↔ ∀ r, r ∈ rows df → ¬ has_origin r) ∧
  (∀ e, (update_graph (F:=F) coord_leb df ys cs).2 = inl e →
     e ≠ ValueError "max() arg is an empty sequence" →
     ∃ r, r ∈ df_year ys cs df ∧ e = KeyError (city1 r) ∧
          ∀ r', r' ∈ df_year ys cs df → city1 r' = city1 r → ¬ has_origin r').
Proof.
  split; [|split].
  - split.
    + intros [fig Hfig]. by eapply update_graph_inr_drawable.
    + intros Hd. destruct (update_graph_returns coord_leb df ys cs Hd)
        as (M & cols & ls & _ & _ & _ & _ & Hfig). by eexists.
  - split; [|apply update_graph_no_origin].
    intros He r Hr Ho.
    destruct (update_graph_origin_inl coord_leb df ys cs _
                (ex_intro _ r (conj Hr Ho)) He) as (r' & _ & Hk & _).
    discriminate Hk.
  - intros e He Hne.
    destruct (decide (Exists has_origin (rows df))) as [Hex|Hnex].
    + apply Exists_exists in Hex. by eapply update_graph_origin_inl.
    + exfalso. apply Hne.
      rewrite update_graph_no_origin in He; [by injection He as <-|].
      intros r Hr Ho. apply Hnex. apply Exists_exists. by exists r.
Qed.

End FigureShape.

(** ** The groups of the two group-bys *)

Section Groups.
Context {coord : Type} `{!EqDecision coord}.
Variable coord_leb : coord → coord → bool.

#[local] Abbreviation Row := (@Row coord).
#[local] Abbreviation DataFrame := (@DataFrame coord).

Lemma agg_key_agg_of (dfy : list Row) k r : agg_key (agg_of dfy k r) = k.
Proof. by destruct k as [[c la] lo]. Qed.

(** The rows of the summary, read off their keys. *)
Lemma summary_elem (dfy : list Row) (s : @Summary coord) :
  s ∈ df_aggregated coord_leb dfy →
  ∃ r rest, city_group dfy (agg_key (agg s)) = r :: rest ∧
    s = summary_of dfy (agg_of dfy (agg_key (agg s)) r) ∧
    ∃ r', r' ∈ dfy ∧ city_key r' = Some (agg_key (agg s)).
Proof.
  rewrite df_aggregated_eq. intros (a & -> & Ha)%list_elem_of_fmap.
  apply aggregate_elem in Ha as (k & r & rest & Hk & Hf & ->).
  cbn [agg summary_of]. rewrite agg_key_agg_of.
  exists r, rest. split; [done|]. split; [done|].
  by apply elem_of_city_keys in Hk.
Qed.

(** X8. The passengers cell of a summary row is the int64 sum of the
    passengers of the filtered rows of its group.  When every filtered
    row has its origin coordinates and no group total leaves the int64
    range, the passengers column adds up to the passengers of the
    filtered rows. *)
Theorem passenger_sum_of_groups (df : DataFrame) ys cs :
  (∀ s, s ∈ summary_table coord_leb df ys cs →
     agg_passengers (agg s)
     = int64_sum (passengers <$> city_group (df_year ys cs df) (agg_key (agg s)))) ∧
  ((∀ r, r ∈ df_year ys cs df → has_origin r) →
   (∀ s, s ∈ summary_table coord_leb df ys cs →
      - 2 ^ 63 ≤ sum_Z (passengers <$> city_group (df_year ys cs df)
                                                 (agg_key (agg s))) < 2 ^ 63) →
   sum_Z ((λ s, agg_passengers (agg s)) <$> summary_table coord_leb df ys cs)
   = sum_Z (passengers <$> df_year ys cs df)).
Proof.
  assert (∀ s, s ∈ summary_table coord_leb df ys cs →
     agg_passengers (agg s)
     = int64_sum (passengers <$> city_group (df_year ys cs df) (agg_key (agg s))))
    as Hcell.
  { intros s Hs. destruct (summary_elem _ s Hs) as (r & rest & _ & Heq & _).
    rewrite Heq at 1. done. }
  split; [exact Hcell|]. intros Ho Hrange.
  transitivity
    (sum_Z ((λ s, sum_Z (passengers <$> city_group (df_year ys cs df)
                                                   (agg_key (agg s))))
            <$> summary_table coord_leb df ys cs)).
  { f_equal. apply list_fmap_ext. intros i s Hs%list_elem_of_lookup_2.
    rewrite Hcell by done. unfold int64_sum. apply wrap64_small. by apply Hrange. }
  transitivity
    (sum_Z ((λ k, sum_Z (passengers <$> city_group (df_year ys cs df) k))
            <$> ((λ s, agg_key (agg s)) <$> summary_table coord_leb df ys cs))).
  { by rewrite <- list_fmap_compose. }
  unfold summary_table. rewrite summary_keys.
  rewrite <- (sum_Z_groups city_key passengers
                (Some <$> group_keys (city_key_leb coord_leb) fst
                            (dropna city_key (df_year ys cs df)))).
  - by rewrite <- list_fmap_compose.
  - apply (NoDup_fmap_2 _), NoDup_group_keys.
  - intros r Hr. destruct (proj1 (has_origin_city_key r) (Ho r Hr)) as [k Hk].
    rewrite Hk. apply list_elem_of_fmap_2. apply elem_of_city_keys. by exists r.
Qed.

(** X25. The flight counts are taken over all rows of the table,
    whatever the selection, grouped by the route key together with the
    origin latitude, origin longitude and origin airport, the rows
    without an origin coordinate left out: the table has one row per
    distinct such key, its count is the number of table rows with that
    key, and the counts add up to the number of table rows that have
    their origin coordinates. *)
Theorem route_counts_all_rows_composite_key (df : DataFrame) :
  route_counts coord_leb (assign_route df)
  = inr (assigned_route_counts coord_leb df) ∧
  NoDup (rc_key <$> assigned_route_counts coord_leb df) ∧
  (∀ k, k ∈ rc_key <$> assigned_route_counts coord_leb df
        ↔ ∃ r, r ∈ rows df ∧ row_route_key r = Some k) ∧
  (∀ rc, rc ∈ assigned_route_counts coord_leb df →
     rc_flight_count rc
     = Z.of_nat (length (filter (λ r, row_route_key r = Some (rc_key rc))
                                (rows df)))) ∧
  sum_Z (rc_flight_count <$> assigned_route_counts coord_leb df)
  = Z.of_nat (length (filter has_origin (rows df))).
Proof.
  split; [done|].
  split; [apply assigned_route_counts_keys|].
  split; [apply assigned_route_counts_keys|].
  split; [apply assigned_route_counts_count|].
  unfold assigned_route_counts.
  rewrite route_counts_of_counts, length_groups.
  - rewrite length_dropna_filter, zip_route_column.
    rewrite (filter_fmap (λ r, (route_of r, r))), length_fmap.
    do 2 f_equal. apply filter_ext_elem. intros r _.
    symmetry. apply has_origin_route_key.
  - apply NoDup_group_keys.
  - intros p Hp. apply elem_of_group_keys. by exists p.
Qed.

(** X26. The summary has exactly one row per distinct triple of origin
    city, origin latitude and origin longitude among the filtered rows
    that have their origin coordinates; so its cities are the origin
    cities of those rows, and a city whose such rows all carry the same
    origin coordinates has exactly one summary row. *)
Theorem summary_one_row_per_city_key (df : DataFrame) ys cs :
  NoDup ((λ s, agg_key (agg s)) <$> summary_table coord_leb df ys cs) ∧
  (∀ k, k ∈ (λ s, agg_key (agg s)) <$> summary_table coord_leb df ys cs
        ↔ ∃ r, r ∈ df_year ys cs df ∧ city_key r = Some k) ∧
  (∀ c, c ∈ summary_city <$> summary_table coord_leb df ys cs
        ↔ ∃ r, r ∈ df_year ys cs df ∧ city1 r = c ∧ has_origin r) ∧
  (∀ c k, (∃ r, r ∈ df_year ys cs df ∧ city1 r = c ∧ has_origin r) →
     (∀ r, r ∈ df_year ys cs df → city1 r = c → has_origin r →
           city_key r = Some k) →
     length (filter (λ s, summary_city s = c) (summary_table coord_leb df ys cs))
     = 1%nat).
Proof.
  unfold summary_table.
  split; [rewrite summary_keys; apply NoDup_group_keys|].
  split; [intros k; rewrite summary_keys; apply elem_of_city_keys|].
  split; [intros c; rewrite summary_cities; apply aggregate_city|].
  intros c k (r0 & Hr0 & Hc0 & Ho0) Hsame.
  assert (length (filter (λ s, summary_city s = c)
                    (df_aggregated coord_leb (df_year ys cs df)))
          = length (filter (λ k', k'.1.1 = c)
                      ((λ s, agg_key (agg s))
                       <$> df_aggregated coord_leb (df_year ys cs df)))) as ->.
  { rewrite filter_fmap, length_fmap. done. }
  rewrite summary_keys. apply (NoDup_constant_length _ k).
  - apply NoDup_filter, NoDup_group_keys.
  - intros k' [Hk'c Hk']%list_elem_of_filter.
    apply elem_of_city_keys in Hk' as (r & Hr & Hk).
    assert (has_origin r) as Ho by (apply has_origin_city_key; by eexists).
    assert (city1 r = c) as Hc.
    { apply city_key_Some in Hk as (_ & _ & ->). done. }
    rewrite (Hsame r Hr Hc Ho) in Hk. by injection Hk.
  - apply list_elem_of_filter. pose proof (Hsame r0 Hr0 Hc0 Ho0) as Hk. split.
    + apply city_key_Some in Hk as (_ & _ & <-). done.
    + apply elem_of_city_keys. by exists r0.
Qed.

(** X27. A summary row reports the airport name of the first filtered
    row that has its origin city and its origin coordinates, for each
    destination coordinate the first cell that is not empty among these
    rows, in table order, and the int64 sum of their passengers; when
    the first row has its destination, that destination is reported. *)
Theorem first_wins_per_group (df : DataFrame) ys cs s :
  s ∈ summary_table coord_leb df ys cs →
  ∃ r rest,
    filter (λ r, city_key r = Some (agg_key (agg s))) (df_year ys cs df)
    = r :: rest ∧
    agg_airport_1 (agg s) = airport_1 r ∧
    agg_end_lat (agg s) = first_valid (end_lat <$> r :: rest) ∧
    agg_end_lon (agg s) = first_valid (end_lon <$> r :: rest) ∧
    agg_passengers (agg s) = int64_sum (passengers <$> r :: rest) ∧
    (is_Some (end_lat r) → agg_end_lat (agg s) = end_lat r) ∧
    (is_Some (end_lon r) → agg_end_lon (agg s) = end_lon r).
Proof.
  intros Hs. destruct (summary_elem _ s Hs) as (r & rest & Hf & Heq & _).
  exists r, rest. split; [exact Hf|].
  assert (agg_airport_1 (agg s) = airport_1 r) as Ha by (by rewrite Heq).
  assert (agg_end_lat (agg s) = first_valid (end_lat <$> r :: rest)) as Hla.
  { rewrite Heq at 1. cbn [agg summary_of agg_of agg_end_lat]. by rewrite Hf. }
  assert (agg_end_lon (agg s) = first_valid (end_lon <$> r :: rest)) as Hlo.
  { rewrite Heq at 1. cbn [agg summary_of agg_of agg_end_lon]. by rewrite Hf. }
  assert (agg_passengers (agg s) = int64_sum (passengers <$> r :: rest)) as Hp.
  { rewrite Heq at 1. cbn [agg summary_of agg_of agg_passengers]. by rewrite Hf. }
  repeat (split; [done|]). split.
  - intros [x Hx]. rewrite Hla, fmap_cons, Hx. done.
  - intros [x Hx]. rewrite Hlo, fmap_cons, Hx. done.
Qed.

End Groups.

(** ** The colour dictionary *)

Section Colours.
Context {coord : Type} `{!EqDecision coord}.
Variable coord_leb : coord → coord → bool.

#[local] Abbreviation DataFrame := (@DataFrame coord).


(** X9. The palette has ten distinct colours and is cycled: two cities of
    the summary have the same colour exactly when their positions in the
    list of distinct cities differ by a multiple of ten. *)
Theorem color_cycle (df : DataFrame) ys cs (i j : nat) (c c' : string) :
  unique_cities (summary_table coord_leb df ys cs) !! i = Some c →
  unique_cities (summary_table coord_leb df ys cs) !! j = Some c' →
  length color_scale = 10%nat ∧
  (color_dict coord_leb df ys cs !! c = color_dict coord_leb df ys cs !! c'
   ↔ (i `mod` 10 = j `mod` 10)%nat).
Proof.
  intros Hi Hj. split; [done|]. unfold color_dict.
  rewrite (city_colors_lookup _ i c), (city_colors_lookup _ j c');
    [|apply NoDup_unique|done|apply NoDup_unique|done].
  change (length color_scale) with 10%nat.
  assert (∀ a b, (a < 10)%nat → (b < 10)%nat →
            color_scale !!! a = color_scale !!! b → a = b) as Hinj.
  { intros a b Ha Hb Heq.
    apply (list_lookup_lookup_total_lt color_scale) in Ha, Hb.
    rewrite Heq in Ha. eapply NoDup_lookup; [apply NoDup_color_scale|done..]. }
  split.
  - intros Heq. apply Hinj; [by apply Nat.mod_upper_bound..|congruence].
  - by intros ->.
Qed.

End Colours.

(** ** Repeated calls *)

Section Calls.
Context {coord F : Type} `{!EqDecision coord, !FloatOps F}.
Variable coord_leb : coord → coord → bool.

#[local] Abbreviation DataFrame := (@DataFrame coord).

Lemma session_from (df d : DataFrame) acc (events : list Event) :
  d = df ∨ d = assign_route df →
  foldl (dispatch (F:=F) coord_leb) (d, acc) events
  = (match events with [] => d | _ => assign_route df end,
     acc ++ ((λ ev, (update_graph coord_leb df ev.1 ev.2).2) <$> events)).
Proof.
  revert d acc. induction events as [|ev events IH]; intros d acc Hd.
  { simpl. by rewrite app_nil_r. }
  simpl foldl.
  assert (dispatch (F:=F) coord_leb (d, acc) ev
          = (assign_route df, acc ++ [(update_graph coord_leb df ev.1 ev.2).2]))
    as -> by (by destruct Hd as [-> | ->]).
  rewrite IH by (by right). rewrite fmap_cons, <- app_assoc. simpl.
  by destruct events.
Qed.

(** X12. Over any run of input changes, each call returns what it would
    return on the freshly loaded table, the rows of the table stay as
    loaded, and from the first call on the table is the loaded one with
    the [route] column assigned. *)
Theorem session_outcomes (df : DataFrame) (events : list Event) :
  (session (F:=F) coord_leb df events).2
  = (λ ev, (update_graph coord_leb df ev.1 ev.2).2) <$> events ∧
  rows (session (F:=F) coord_leb df events).1 = rows df ∧
  (events ≠ [] → (session (F:=F) coord_leb df events).1 = assign_route df).
Proof.
  unfold session. rewrite (session_from df) by (by left).
  split; [done|]. split; [by destruct events|]. by destruct events.
Qed.

End Calls.

(** ** The order of the groups *)

Lemma StronglySorted_mono {A} (R1 R2 : relation A) (l : list A) :
  (∀ x y, x ∈ l → y ∈ l → R1 x y → R2 x y) →
  StronglySorted R1 l → StronglySorted R2 l.
Proof.
  intros Himp Hs. induction Hs as [|x l Hs IH Hx]; [constructor|].
  constructor.
  - apply IH. intros a b Ha Hb. apply Himp; by right.
  - apply Forall_forall. intros y Hy. rewrite Forall_forall in Hx.
    apply Himp; [left|by right|by apply Hx].
Qed.

Lemma StronglySorted_filter {A} (R : relation A) (P : A → Prop)
    `{!∀ x, Decision (P x)} (l : list A) :
  StronglySorted R l → StronglySorted R (filter P l).
Proof.
  induction 1 as [|x l Hs IH Hx]; [constructor|].
  rewrite filter_cons. destruct (decide (P x)); [|done].
  constructor; [done|]. apply Forall_forall. intros y Hy.
  apply list_elem_of_filter in Hy as [_ Hy]. rewrite Forall_forall in Hx. auto.
Qed.

Section SortedGroups.
Context {A K : Type} `{!EqDecision K}.
Variable leb : K → K → bool.
Hypothesis leb_total : ∀ a b, leb a b = true ∨ leb b a = true.
Hypothesis leb_trans : ∀ a b c, leb a b = true → leb b c = true → leb a c = true.

Lemma merge_sort_leb_sorted (l : list K) :
  StronglySorted (λ a b, leb a b = true) (merge_sort (λ a b, leb a b) l).
Proof.
  assert (Transitive (λ a b : K, Is_true (leb a b))) as Htrans.
  { intros a b c Hab%Is_true_true Hbc%Is_true_true. apply Is_true_true. eauto. }
  assert (Total (λ a b : K, Is_true (leb a b))) as Htot.
  { intros a b. destruct (leb_total a b); [left|right]; by apply Is_true_true. }
  eapply StronglySorted_mono; [|apply (StronglySorted_merge_sort _)].
  intros x y _ _ H. by apply Is_true_true.
Qed.

Lemma group_keys_sorted (key : A → K) (l : list A) :
  StronglySorted (λ a b, leb a b = true) (group_keys leb key l).
Proof. apply merge_sort_leb_sorted. Qed.

End SortedGroups.

Section LexOrder.
Context {A B : Type} `{!EqDecision A}.
Variable lebA : A → A → bool.
Variable lebB : B → B → bool.
Hypothesis lebA_total : ∀ a b, lebA a b = true ∨ lebA b a = true.
Hypothesis lebA_trans : ∀ a b c, lebA a b = true → lebA b c = true → lebA a c = true.
Hypothesis lebA_antisym : ∀ a b, lebA a b = true → lebA b a = true → a = b.
Hypothesis lebB_total : ∀ a b, lebB a b = true ∨ lebB b a = true.
Hypothesis lebB_trans : ∀ a b c, lebB a b = true → lebB b c = true → lebB a c = true.
Hypothesis lebB_antisym : ∀ a b, lebB a b = true → lebB b a = true → a = b.

Lemma lex_leb_total (p q : A * B) :
  lex_leb lebA lebB p q = true ∨ lex_leb lebA lebB q p = true.
Proof.
  unfold lex_leb. destruct (decide (p.1 = q.1)) as [Heq|Hne].
  - rewrite decide_True by done. apply lebB_total.
  - rewrite (decide_False (P := q.1 = p.1)) by congruence. apply lebA_total.
Qed.

Lemma lex_leb_trans (p q r : A * B) :
  lex_leb lebA lebB p q = true → lex_leb lebA lebB q r = true →
  lex_leb lebA lebB p r = true.
Proof.
  unfold lex_leb.
  destruct (decide (p.1 = q.1)) as [Hpq|Hpq], (decide (q.1 = r.1)) as [Hqr|Hqr],
    (decide (p.1 = r.1)) as [Hpr|Hpr]; try congruence; intros H1 H2;
    try (exfalso; apply Hpq; apply lebA_antisym; [done|]; by rewrite Hpr);
    try (by rewrite Hpq); try (by rewrite <- Hqr); eauto.
Qed.

Lemma lex_leb_antisym (p q : A * B) :
  lex_leb lebA lebB p q = true → lex_leb lebA lebB q p = true → p = q.
Proof.
  unfold lex_leb. destruct p as [a b], q as [a' b']. simpl.
  destruct (decide (a = a')) as [->|Hne].
  - rewrite decide_True by done. intros H1 H2. f_equal. by apply lebB_antisym.
  - rewrite decide_False by congruence. intros H1 H2. exfalso. apply Hne.
    by apply lebA_antisym.
Qed.

Lemma lex_leb_fst (p q : A * B) :
  lex_leb lebA lebB p q = true → lebA p.1 q.1 = true.
Proof.
  unfold lex_leb. destruct (decide (p.1 = q.1)) as [->|]; [|done].
  intros _. by destruct (lebA_total q.1 q.1).
Qed.

End LexOrder.

Lemma string_ltb_of_leb (a b : string) :
  String.leb a b = true → a ≠ b → String.ltb a b = true.
Proof.
  intros [Hlt|?]%string_leb_iff Hne; [|done]. unfold String.ltb. by rewrite Hlt.
Qed.

Lemma string_ltb_asym (a b : string) :
  String.ltb a b = true → String.ltb b a = true → False.
Proof.
  unfold String.ltb. rewrite (String.compare_antisym b a).
  by destruct (String.compare a b).
Qed.

(** The distinct values of an ascending column are strictly ascending. *)
Lemma unique_sorted_strict (l : list string) :
  StronglySorted (λ a b, String.leb a b = true) l →
  StronglySorted (λ a b, String.ltb a b = true) (unique l).
Proof.
  induction 1 as [|a l Hs IH Ha]; simpl; [constructor|].
  constructor; [by apply StronglySorted_filter|].
  apply Forall_forall. intros x [Hne Hx]%list_elem_of_filter.
  rewrite elem_of_unique in Hx. rewrite Forall_forall in Ha.
  apply string_ltb_of_leb; [by apply Ha|congruence].
Qed.

Section SummaryOrder.
Context {coord : Type} `{!EqDecision coord}.
Variable coord_leb : coord → coord → bool.
Hypothesis coord_leb_total : ∀ a b, coord_leb a b = true ∨ coord_leb b a = true.
Hypothesis coord_leb_trans :
  ∀ a b c, coord_leb a b = true → coord_leb b c = true → coord_leb a c = true.
Hypothesis coord_leb_antisym :
  ∀ a b, coord_leb a b = true → coord_leb b a = true → a = b.

#[local] Abbreviation Row := (@Row coord).
#[local] Abbreviation DataFrame := (@DataFrame coord).

Lemma city_key_leb_total (k k' : string * coord * coord) :
  city_key_leb coord_leb k k' = true ∨ city_key_leb coord_leb k' k = true.
Proof.
  apply lex_leb_total; [|done]. intros p q.
  apply lex_leb_total; [apply String.leb_total|done].
Qed.

Lemma city_key_leb_trans (k1 k2 k3 : string * coord * coord) :
  city_key_leb coord_leb k1 k2 = true → city_key_leb coord_leb k2 k3 = true →
  city_key_leb coord_leb k1 k3 = true.
Proof.
  apply lex_leb_trans; [| |done].
  - intros p q r. apply lex_leb_trans;
      [apply string_leb_trans|apply String.leb_antisym|done].
  - intros p q. apply lex_leb_antisym; [apply String.leb_antisym|done].
Qed.

Lemma city_key_leb_city (k k' : string * coord * coord) :
  city_key_leb coord_leb k k' = true → String.leb k.1.1 k'.1.1 = true.
Proof.
  intros H. apply lex_leb_fst in H.
  - apply lex_leb_fst in H; [done|apply String.leb_total].
  - intros p q. apply lex_leb_total; [apply String.leb_total|done].
Qed.

Lemma summary_keys_sorted (dfy : list Row) :
  StronglySorted (λ k k', city_key_leb coord_leb k k' = true)
    ((λ s, agg_key (agg s)) <$> df_aggregated coord_leb dfy).
Proof.
  rewrite summary_keys.
  apply group_keys_sorted; [apply city_key_leb_total|apply city_key_leb_trans].
Qed.

Lemma unique_cities_sorted (dfy : list Row) :
  StronglySorted (λ c c', String.ltb c c' = true)
    (unique_cities (df_aggregated coord_leb dfy)).
Proof.
  unfold unique_cities. apply unique_sorted_strict.
  assert (summary_city <$> df_aggregated coord_leb dfy
          = (λ k, k.1.1) <$> ((λ s, agg_key (agg s)) <$> df_aggregated coord_leb dfy))
    as -> by (by rewrite <- list_fmap_compose).
  eapply StronglySorted_fmap; [|apply summary_keys_sorted].
  intros k k'. apply city_key_leb_city.
Qed.

(** X13. When the coordinates are totally ordered, the summary rows come
    in ascending order of (origin city, origin latitude, origin
    longitude), whatever the order of the rows in the table, and the
    distinct cities that receive the colours in turn are in strictly
    ascending order of their names. *)
Theorem summary_sorted (df : DataFrame) ys cs :
  StronglySorted (λ k k', city_key_leb coord_leb k k' = true)
    ((λ s, agg_key (agg s)) <$> summary_table coord_leb df ys cs) ∧
  StronglySorted (λ c c', String.ltb c c' = true)
    (unique_cities (summary_table coord_leb df ys cs)).
Proof. split; [apply summary_keys_sorted|apply unique_cities_sorted]. Qed.

(** X14. When the coordinates are totally ordered, the colour of a city
    depends only on the set of origin cities of the filtered rows that
    have their origin coordinates: two calls, on any tables and
    selections, for which these cities are the same use the same colour
    dictionary. *)
Theorem colors_depend_on_city_set (df df' : DataFrame) ys cs ys' cs' :
  (∀ c, (∃ r, r ∈ df_year ys cs df ∧ city1 r = c ∧ has_origin r)
        ↔ (∃ r, r ∈ df_year ys' cs' df' ∧ city1 r = c ∧ has_origin r)) →
  color_dict coord_leb df ys cs = color_dict coord_leb df' ys' cs'.
Proof.
  intros Hsame. unfold color_dict, summary_table. f_equal.
  apply (StronglySorted_unique_strong (λ c c', String.ltb c c' = true)).
  - intros x y _ _ Hxy Hyx. by destruct (string_ltb_asym x y).
  - apply unique_cities_sorted.
  - apply unique_cities_sorted.
  - apply NoDup_Permutation; [apply NoDup_unique..|].
    intros c. rewrite !elem_of_unique_cities. apply Hsame.
Qed.

End SummaryOrder.

(** ** The dropdown options *)

Lemma StronglySorted_strict {A} (R : relation A) (l : list A) :
  StronglySorted R l → NoDup l → StronglySorted (λ a b, R a b ∧ a ≠ b) l.
Proof.
  induction 1 as [|x l Hs IH Hx]; intros Hnd; [constructor|].
  apply NoDup_cons in Hnd as [Hnin Hnd]. constructor; [by apply IH|].
  apply Forall_forall. intros y Hy. rewrite Forall_forall in Hx.
  split; [by apply Hx|]. intros ->. done.
Qed.

Lemma resolve_Some_perm {A} `{!EqDecision A} (l all : list A) :
  l ≡ₚ all → ∀ x, x ∈ resolve (Some l) all ↔ x ∈ all.
Proof.
  intros Hp x. unfold resolve. destruct (decide (length l = 0%nat)); [done|].
  by rewrite Hp.
Qed.

Section Options.
Context {coord F : Type} `{!EqDecision coord, !FloatOps F}.
Variable coord_leb : coord → coord → bool.

#[local] Abbreviation DataFrame := (@DataFrame coord).

Lemma year_options_values (df : DataFrame) :
  value <$> year_options df ≡ₚ unique (Year <$> rows df).
Proof.
  unfold year_options. rewrite merge_sort_Permutation, <- list_fmap_compose.
  by rewrite list_fmap_id.
Qed.

Lemma source_city_options_values (df : DataFrame) :
  value <$> source_city_options df ≡ₚ unique (city1 <$> rows df).
Proof.
  unfold source_city_options. rewrite merge_sort_Permutation, <- list_fmap_compose.
  by rewrite list_fmap_id.
Qed.

(** X15. The year dropdown offers every year of the table exactly once,
    in strictly ascending order, each with the year as label and as
    value. *)
Theorem year_options_sorted (df : DataFrame) :
  StronglySorted Z.lt (value <$> year_options df) ∧
  (∀ o, o ∈ year_options df → label o = value o) ∧
  (∀ y, y ∈ value <$> year_options df ↔ y ∈ Year <$> rows df).
Proof.
  split; [|split].
  - eapply StronglySorted_mono;
      [|apply (StronglySorted_strict Z.le)].
    + intros x y _ _ [Hle Hne]. lia.
    + eapply StronglySorted_fmap;
        [|apply (merge_sort_leb_sorted (λ a b, Z.leb (value a) (value b)))].
      * intros a b H. by apply Z.leb_le.
      * intros a b. destruct (Z.le_ge_cases (value a) (value b));
          [left|right]; by apply Z.leb_le.
      * intros a b c H1%Z.leb_le H2%Z.leb_le. apply Z.leb_le. lia.
    + rewrite year_options_values. apply NoDup_unique.
  - intros o Ho. unfold year_options in Ho.
    rewrite merge_sort_Permutation in Ho.
    by apply list_elem_of_fmap in Ho as (y & -> & _).
  - intros y. by rewrite year_options_values, elem_of_unique.
Qed.

(** X16. The city dropdown offers every origin city of the table exactly
    once, in strictly ascending order of the names, each with the name as
    label and as value. *)
Theorem source_city_options_sorted (df : DataFrame) :
  StronglySorted (λ a b, String.ltb a b = true)
    (label <$> source_city_options df) ∧
  (∀ o, o ∈ source_city_options df → label o = value o) ∧
  (∀ c, c ∈ value <$> source_city_options df ↔ c ∈ city1 <$> rows df).
Proof.
  assert (∀ o, o ∈ source_city_options df → label o = value o) as Hlv.
  { intros o Ho. unfold source_city_options in Ho.
    rewrite merge_sort_Permutation in Ho.
    by apply list_elem_of_fmap in Ho as (y & -> & _). }
  assert (label <$> source_city_options df = value <$> source_city_options df)
    as Hlabels.
  { apply list_fmap_ext. intros i o Ho%list_elem_of_lookup_2. by apply Hlv. }
  split; [|split; [done|]].
  - eapply StronglySorted_mono;
      [|apply (StronglySorted_strict (λ a b, String.leb a b = true))].
    + intros x y _ _ [Hle Hne]. by apply string_ltb_of_leb.
    + eapply StronglySorted_fmap;
        [|apply (merge_sort_leb_sorted (λ a b, String.leb (label a) (label b)))].
      * intros a b H. exact H.
      * intros a b. apply String.leb_total.
      * intros a b c. apply string_leb_trans.
    + rewrite Hlabels, source_city_options_values. apply NoDup_unique.
  - intros c. by rewrite source_city_options_values, elem_of_unique.
Qed.

(** X17. Selecting every option of both dropdowns gives the same table
    and figure as selecting nothing. *)
Theorem select_all_options (df : DataFrame) :
  update_graph (F:=F) coord_leb df (Some (value <$> year_options df))
                                   (Some (value <$> source_city_options df))
  = update_graph coord_leb df None None.
Proof.
  apply update_graph_df_year, df_year_ext.
  - apply resolve_Some_perm, year_options_values.
  - apply resolve_Some_perm, source_city_options_values.
Qed.

End Options.

(** ** The loader: splitting a coordinate string *)

Lemma split_cons (c : ascii) (rest : string) :
  split (String c rest)
  = match rest with
    | String c' rest' =>
        if Ascii.eqb c "," && Ascii.eqb c' " " then EmptyString :: split rest'
        else match split rest with
             | t :: ts => String c t :: ts
             | [] => [String c EmptyString]
             end
    | EmptyString =>
        match split rest with
        | t :: ts => String c t :: ts
        | [] => [String c EmptyString]
        end
    end.
Proof. by destruct rest. Qed.

(** Induction over strings that may step over two characters. *)
Lemma string_ind2 (P : string → Prop) :
  P EmptyString →
  (∀ c, P (String c EmptyString)) →
  (∀ c c' s, P s → P (String c' s) → P (String c (String c' s))) →
  ∀ s, P s.
Proof.
  intros H0 H1 H2 s.
  assert (P s ∧ ∀ c, P (String c s)) as [? _]; [|done].
  induction s as [|a s [IH1 IH2]]; [by split|].
  split; [apply IH2|]. intros c. apply H2; [done|apply IH2].
Qed.

Lemma split_nonempty (s : string) : split s ≠ [].
Proof.
  induction s as [|c|c c' s IH1 IH2] using string_ind2; [done|done|].
  rewrite split_cons. destruct (_ && _); [done|].
  by destruct (split (String c' s)).
Qed.

Lemma concat_cons_cons (sep x y : string) (l : list string) :
  String.concat sep (x :: y :: l) = x +:+ sep +:+ String.concat sep (y :: l).
Proof. reflexivity. Qed.

(** X18. Joining the pieces of a split with the separator gives the
    string back, and a split always has at least one piece. *)
Theorem split_join (s : string) :
  String.concat ", " (split s) = s ∧ split s ≠ [].
Proof.
  split; [|apply split_nonempty].
  induction s as [|c|c c' s IH1 IH2] using string_ind2; [done|done|].
  rewrite split_cons.
  destruct (Ascii.eqb c "," && Ascii.eqb c' " ") eqn:Hsep.
  - apply andb_prop in Hsep as [->%Ascii.eqb_eq ->%Ascii.eqb_eq].
    pose proof (split_nonempty s) as Hne.
    simpl. destruct (split s) as [|t ts]; [done|]. by rewrite IH1.
  - pose proof (split_nonempty (String c' s)) as Hne.
    destruct (split (String c' s)) as [|t ts]; [done|].
    destruct ts as [|t' ts].
    + simpl in IH2 |- *. by rewrite IH2.
    + rewrite concat_cons_cons in IH2 |- *.
      change (String c (t +:+ ", " +:+ String.concat ", " (t' :: ts))
              = String c (String c' s)).
      by rewrite IH2.
Qed.

Lemma split_head (c : ascii) (s : string) :
  ∃ ts, split (String c s) = EmptyString :: ts ∨
        ∃ t, split (String c s) = String c t :: ts.
Proof.
  rewrite split_cons. pose proof (split_nonempty s) as Hne.
  destruct s as [|c' s'].
  - destruct (split EmptyString) as [|t ts]; [done|]. exists ts. right. by exists t.
  - destruct (_ && _); [by eexists; left|].
    destruct (split (String c' s')) as [|t ts]; [done|]. exists ts. right. by exists t.
Qed.

Lemma split_prepend (a : string) :
  split a = [a] → ∀ s, split (a +:+ ", " +:+ s) = a :: split s.
Proof.
  induction a as [|c|c c' a IH1 IH2] using string_ind2; intros Ha s.
  - done.
  - change (split (String c (String "," (String " " s))) = String c "" :: split s).
    rewrite (split_cons c).
    replace (Ascii.eqb c "," && Ascii.eqb "," " ") with false
      by (by rewrite andb_false_r).
    by rewrite (split_cons ",").
  - rewrite split_cons in Ha.
    change (split (String c (String c' (a +:+ ", " +:+ s)))
            = String c (String c' a) :: split s).
    rewrite split_cons.
    destruct (Ascii.eqb c "," && Ascii.eqb c' " "); [done|].
    destruct (split (String c' a)) as [|t ts] eqn:Hsplit; [done|].
    injection Ha as -> ->.
    change (String c' (a +:+ ", " +:+ s)) with (String c' a +:+ ", " +:+ s).
    by rewrite IH2.
Qed.

(** X19. No piece of a split contains the separator; and a string
    without the separator, followed by the separator and a rest, splits
    into that string and the pieces of the rest, so that ["a, b"] splits
    into the two pieces [a] and [b]. *)
Theorem split_pieces (s : string) :
  (∀ t, t ∈ split s → split t = [t]) ∧
  (∀ a b, split a = [a] → split b = [b] → s = a +:+ ", " +:+ b →
          split s = [a; b]).
Proof.
  split.
  - induction s as [|c|c c' s IH1 IH2] using string_ind2.
    + by intros t ->%list_elem_of_singleton.
    + by intros t ->%list_elem_of_singleton.
    + intros t. rewrite split_cons.
      destruct (Ascii.eqb c "," && Ascii.eqb c' " ") eqn:Hsep.
      { intros [->|Ht]%elem_of_cons; [done|by apply IH1]. }
      destruct (split_head c' s) as (ts & [Hs|(t' & Hs)]); rewrite Hs in *.
      * intros [->|Ht]%elem_of_cons; [done|]. apply IH2. by right.
      * intros [->|Ht]%elem_of_cons; [|apply IH2; by right].
        rewrite split_cons, Hsep, (IH2 (String c' t')); [done|left].
  - intros a b Ha Hb ->. by rewrite split_prepend, Hb.
Qed.


(** ** The loader: splitting two columns and converting four *)

Lemma bind_inr {A B} (a : A) (f : A → Result B) : (inr a ≫= f : Result B) = f a.
Proof. reflexivity. Qed.

Lemma bind_inl {A B} (e : PyError) (f : A → Result B) :
  ((inl e : Result A) ≫= f : Result B) = inl e.
Proof. reflexivity. Qed.

Lemma zip_fmap_same {A B C} (f : A → B) (g : A → C) (l : list A) :
  zip (f <$> l) (g <$> l) = (λ x, (f x, g x)) <$> l.
Proof. by rewrite zip_with_fmap_l, zip_with_fmap_r, zip_with_diag. Qed.

Lemma zip_with_fmap_same {A B C} (h : A → B → C) (g : A → B) (l : list A) :
  zip_with h l (g <$> l) = (λ x, h x (g x)) <$> l.
Proof. by rewrite zip_with_fmap_r, zip_with_diag. Qed.

Lemma split_column_fail (col : list string) :
  expand_width col ≠ 2%nat →
  split_column col = inl (ValueError "Columns must be same length as key").
Proof. intros H. unfold split_column, assign_two. by rewrite decide_False. Qed.

Lemma split_column_ok (col : list string) :
  expand_width col = 2%nat → split_column col = inr (cell_pair <$> col).
Proof.
  intros Hw. unfold split_column, assign_two, expand.
  rewrite decide_True by done. unfold ret, mret, result_ret. f_equal.
  rewrite <- list_fmap_compose. apply list_fmap_ext.
  intros i s Hs%list_elem_of_lookup_2. simpl. rewrite Hw. unfold cell_pair.
  assert (length (split s) ≤ 2)%nat as Hle.
  { rewrite <- Hw. apply max_list_elem_of_le.
    by apply (list_elem_of_fmap_2 (λ s, length (split s))). }
  pose proof (split_nonempty s) as Hne.
  destruct (split s) as [|a [|b [|c l]]]; simpl in *; [done|done|done|lia].
Qed.


Lemma max_list_constant (ns : list nat) (n : nat) :
  ns ≠ [] → (∀ m, m ∈ ns → m = n) → max_list ns = n.
Proof. intros Hne Hall. apply Hall. by apply max_list_elem_of. Qed.

Section LoaderProperties.
Context {coord : Type}.
Variable numeric_text : string → bool.
Variable to_numeric : string → option (option coord).

#[local] Abbreviation RawRow := RawRow.
#[local] Abbreviation LoadedRow := (@LoadedRow coord).

(** The split of a numeric column would have one piece per row. *)
Lemma numeric_column_width (col : list string) :
  numeric_column numeric_text col → expand_width col = 1%nat.
Proof.
  intros [Hne Hall]. apply max_list_constant; [by destruct col|].
  intros m (s & -> & Hs)%list_elem_of_fmap.
  rewrite Forall_forall in Hall. destruct (Hall s Hs) as [-> _]. done.
Qed.

Lemma str_accessor_numeric (col : list string) :
  numeric_column numeric_text col →
  str_accessor numeric_text col
  = inl (AttributeError "Can only use .str accessor with string values!").
Proof. intros H. unfold str_accessor. by rewrite decide_True. Qed.

Lemma str_accessor_text (col : list string) :
  ¬ numeric_column numeric_text col → str_accessor numeric_text col = inr col.
Proof. intros H. unfold str_accessor. by rewrite decide_False. Qed.

Lemma str_accessor_two (col : list string) :
  expand_width col = 2%nat → str_accessor numeric_text col = inr col.
Proof.
  intros Hw. apply str_accessor_text. intros Hn%numeric_column_width. lia.
Qed.

Lemma to_numeric_cell_inr (c : option string) (v : option coord) :
  to_numeric_cell to_numeric c = inr v → v = numeric to_numeric c.
Proof.
  unfold to_numeric_cell, numeric. destruct c as [s|]; simpl.
  - destruct (to_numeric s); [|done]. by intros [= ->].
  - by intros [= ->].
Qed.

Lemma for_each_numeric (cells : list (option string)) vs :
  for_each (to_numeric_cell to_numeric) cells = inr vs →
  vs = numeric to_numeric <$> cells.
Proof.
  intros H%for_each_Forall2. symmetry. apply list_eq_Forall2, Forall2_fmap_l.
  eapply Forall2_impl; [exact H|]. intros c v Hc. simpl.
  symmetry. by apply to_numeric_cell_inr.
Qed.

Lemma rows_assemble (csv : list RawRow) :
  zip_with (λ r c, mkLoadedRow r c.1.1.1 c.1.1.2 c.1.2 c.2) csv
    (zip (zip (zip
       (numeric to_numeric <$> (cell_pair <$> (Geocoded_City1 <$> csv)).*1)
       (numeric to_numeric <$> (cell_pair <$> (Geocoded_City1 <$> csv)).*2))
       (numeric to_numeric <$> (cell_pair <$> (Geocoded_City2 <$> csv)).*1))
       (numeric to_numeric <$> (cell_pair <$> (Geocoded_City2 <$> csv)).*2))
  = load_row to_numeric <$> csv.
Proof.
  rewrite <- !list_fmap_compose. rewrite !zip_fmap_same, zip_with_fmap_same.
  done.
Qed.

(** The outcome of the two splits. *)
Lemma load_splits (csv : list RawRow) :
  load numeric_text to_numeric csv
  = (if decide (numeric_column numeric_text (Geocoded_City1 <$> csv))
     then inl (AttributeError "Can only use .str accessor with string values!")
     else if decide (expand_width (Geocoded_City1 <$> csv) = 2%nat)
     then if decide (numeric_column numeric_text (Geocoded_City2 <$> csv))
          then inl (AttributeError "Can only use .str accessor with string values!")
          else if decide (expand_width (Geocoded_City2 <$> csv) = 2%nat)
          then (start_lat ← for_each (to_numeric_cell to_numeric)
                               (fst <$> (cell_pair <$> (Geocoded_City1 <$> csv)));
                start_lon ← for_each (to_numeric_cell to_numeric)
                               (snd <$> (cell_pair <$> (Geocoded_City1 <$> csv)));
                end_lat ← for_each (to_numeric_cell to_numeric)
                             (fst <$> (cell_pair <$> (Geocoded_City2 <$> csv)));
                end_lon ← for_each (to_numeric_cell to_numeric)
                             (snd <$> (cell_pair <$> (Geocoded_City2 <$> csv)));
                ret (zip_with (λ r c, mkLoadedRow r c.1.1.1 c.1.1.2 c.1.2 c.2) csv
                       (zip (zip (zip start_lat start_lon) end_lat) end_lon)))
          else inl (ValueError "Columns must be same length as key")
     else inl (ValueError "Columns must be same length as key")).
Proof.
  unfold load.
  destruct (decide (numeric_column numeric_text (Geocoded_City1 <$> csv)))
    as [N1|N1]; [by rewrite (str_accessor_numeric _ N1)|].
  rewrite (str_accessor_text _ N1), bind_inr.
  destruct (decide (expand_width (Geocoded_City1 <$> csv) = 2%nat)) as [H1|H1];
    [|by rewrite (split_column_fail _ H1)].
  rewrite (split_column_ok _ H1), bind_inr.
  destruct (decide (numeric_column numeric_text (Geocoded_City2 <$> csv)))
    as [N2|N2]; [by rewrite (str_accessor_numeric _ N2)|].
  rewrite (str_accessor_text _ N2), bind_inr.
  destruct (decide (expand_width (Geocoded_City2 <$> csv) = 2%nat)) as [H2|H2];
    [|by rewrite (split_column_fail _ H2)].
  by rewrite (split_column_ok _ H2), bind_inr.
Qed.

Lemma load_inr (csv : list RawRow) (t : list LoadedRow) :
  load numeric_text to_numeric csv = inr t →
  expand_width (Geocoded_City1 <$> csv) = 2%nat ∧
  expand_width (Geocoded_City2 <$> csv) = 2%nat ∧
  t = load_row to_numeric <$> csv.
Proof.
  rewrite load_splits. intros H.
  destruct (decide (numeric_column _ (Geocoded_City1 <$> csv))); [done|].
  destruct (decide (expand_width (Geocoded_City1 <$> csv) = 2%nat)) as [H1|];
    [|done].
  destruct (decide (numeric_column _ (Geocoded_City2 <$> csv))); [done|].
  destruct (decide (expand_width (Geocoded_City2 <$> csv) = 2%nat)) as [H2|];
    [|done].
  destruct (for_each _ ((cell_pair <$> (Geocoded_City1 <$> csv)).*1))
    as [e|v1] eqn:E1; [done|]. rewrite bind_inr in H.
  destruct (for_each _ ((cell_pair <$> (Geocoded_City1 <$> csv)).*2))
    as [e|v2] eqn:E2; [done|]. rewrite bind_inr in H.
  destruct (for_each _ ((cell_pair <$> (Geocoded_City2 <$> csv)).*1))
    as [e|v3] eqn:E3; [done|]. rewrite bind_inr in H.
  destruct (for_each _ ((cell_pair <$> (Geocoded_City2 <$> csv)).*2))
    as [e|v4] eqn:E4; [done|]. rewrite bind_inr in H.
  apply for_each_numeric in E1, E2, E3, E4. subst.
  injection H as <-. split; [done|]. split; [done|]. by rewrite rows_assemble.
Qed.

Lemma for_each_converts (cells : list (option string)) :
  (∀ c, c ∈ cells → ∃ v, to_numeric_cell to_numeric c = inr v) →
  for_each (to_numeric_cell to_numeric) cells
  = inr (numeric to_numeric <$> cells).
Proof.
  intros Hall.
  destruct (for_each_total (to_numeric_cell to_numeric) cells Hall) as [vs Hvs].
  rewrite Hvs. f_equal. by apply for_each_numeric.
Qed.

Lemma converts_cells (csv : list RawRow) (g : RawRow → string)
    (pr : option string * option string → option string) c :
  (∀ r, r ∈ csv → ∃ v, to_numeric_cell to_numeric (pr (cell_pair (g r))) = inr v) →
  c ∈ pr <$> (cell_pair <$> (g <$> csv)) →
  ∃ v, to_numeric_cell to_numeric c = inr v.
Proof.
  intros Hall (p & -> & Hp)%list_elem_of_fmap.
  apply list_elem_of_fmap in Hp as (s & -> & Hs).
  apply list_elem_of_fmap in Hs as (r & -> & Hr). by apply Hall.
Qed.

Lemma load_ok (csv : list RawRow) :
  expand_width (Geocoded_City1 <$> csv) = 2%nat →
  expand_width (Geocoded_City2 <$> csv) = 2%nat →
  (∀ r, r ∈ csv → converts to_numeric r) →
  load numeric_text to_numeric csv = inr (load_row to_numeric <$> csv).
Proof.
  intros H1 H2 Hconv. unfold load.
  rewrite (str_accessor_two _ H1), bind_inr, (split_column_ok _ H1), bind_inr.
  rewrite (str_accessor_two _ H2), bind_inr, (split_column_ok _ H2), bind_inr.
  rewrite !for_each_converts, !bind_inr.
  { unfold ret, mret, result_ret. f_equal. apply rows_assemble. }
  all: intros c;
    first [ apply (converts_cells csv Geocoded_City1 fst)
          | apply (converts_cells csv Geocoded_City1 snd)
          | apply (converts_cells csv Geocoded_City2 fst)
          | apply (converts_cells csv Geocoded_City2 snd) ];
    intros r Hr; apply (Hconv r Hr); set_solver.
Qed.

End LoaderProperties.

Section LoaderClaims.
Context {coord : Type}.
Variable numeric_text : string → bool.
Variable to_numeric : string → option (option coord).

#[local] Abbreviation LoadedRow := (@LoadedRow coord).

(** X20. The exceptions of the two splits.  On a coordinate column that
    [read_csv] typed as numbers the [.str] accessor raises
    [AttributeError]; on a text column whose longest split does not have
    exactly two pieces (no row holds the separator, or some row holds it
    twice, or the file has no row) the assignment of the two new columns
    raises [ValueError]; the first column is split before the second is
    looked at, and all this happens before any conversion to numbers. *)
Theorem load_needs_two_columns (csv : list RawRow) :
  load numeric_text to_numeric []
  = inl (ValueError "Columns must be same length as key") ∧
  (numeric_column numeric_text (Geocoded_City1 <$> csv) →
   load numeric_text to_numeric csv
   = inl (AttributeError "Can only use .str accessor with string values!")) ∧
  (¬ numeric_column numeric_text (Geocoded_City1 <$> csv) →
   expand_width (Geocoded_City1 <$> csv) ≠ 2%nat →
   load numeric_text to_numeric csv
   = inl (ValueError "Columns must be same length as key")) ∧
  (expand_width (Geocoded_City1 <$> csv) = 2%nat →
   numeric_column numeric_text (Geocoded_City2 <$> csv) →
   load numeric_text to_numeric csv
   = inl (AttributeError "Can only use .str accessor with string values!")) ∧
  (expand_width (Geocoded_City1 <$> csv) = 2%nat →
   ¬ numeric_column numeric_text (Geocoded_City2 <$> csv) →
   expand_width (Geocoded_City2 <$> csv) ≠ 2%nat →
   load numeric_text to_numeric csv
   = inl (ValueError "Columns must be same length as key")).
Proof.
  split; [done|]. rewrite load_splits.
  split; [intros N1; by rewrite decide_True|].
  split; [intros N1 H1; by rewrite decide_False, decide_False|].
  assert (expand_width (Geocoded_City1 <$> csv) = 2%nat →
          ¬ numeric_column numeric_text (Geocoded_City1 <$> csv)) as Htext.
  { intros H1 Hn%numeric_column_width. lia. }
  split.
  - intros H1 N2. rewrite decide_False by by apply Htext.
    by rewrite decide_True, decide_True.
  - intros H1 N2 H2. rewrite decide_False by by apply Htext.
    by rewrite decide_True, decide_False, decide_False.
Qed.

(** X21. A load that succeeds keeps the CSV rows, one loaded row each in
    file order, every loaded row depending on its own CSV row only; the
    file had at least one row, so a table built from it has at least one
    row, as many as the file, and no [route] column. *)
Theorem load_success (csv : list RawRow) (t : list LoadedRow) :
  load numeric_text to_numeric csv = inr t →
  csv ≠ [] ∧ t = load_row to_numeric <$> csv ∧ raw <$> t = csv ∧
  ∀ df, loaded_df t = Some df →
        rows df ≠ [] ∧ route df = None ∧ length (rows df) = length csv.
Proof.
  intros (H1 & _ & ->)%load_inr.
  assert (csv ≠ []) as Hne by (by intros ->).
  split; [done|]. split; [done|]. split.
  { rewrite <- list_fmap_compose. apply list_fmap_id. }
  intros df Hdf. unfold loaded_df in Hdf.
  destruct (mapM to_row (load_row to_numeric <$> csv)) as [rs|] eqn:Hrs; [|done].
  injection Hdf as <-. apply length_mapM in Hrs. rewrite length_fmap in Hrs.
  simpl. split; [|done]. intros ->. destruct csv; done.
Qed.

Lemma well_formed_row (r : RawRow) (row : @Row coord) :
  well_formed to_numeric r row →
  length (split (Geocoded_City1 r)) = 2%nat ∧
  length (split (Geocoded_City2 r)) = 2%nat ∧
  converts to_numeric r ∧
  to_row (load_row to_numeric r) = Some row.
Proof.
  intros (la & lo & ela & elo & H1 & Hla & Hlo & H2 & Hela & Helo
          & [xla Xla] & Nla & [xlo Xlo] & Nlo & [xela Xela] & Nela
          & [xelo Xelo] & Nelo & HY & Hc1 & Hc2 & Ha & Hp).
  assert (split (Geocoded_City1 r) = [la; lo]) as S1
    by (by rewrite H1, split_prepend, Hlo).
  assert (split (Geocoded_City2 r) = [ela; elo]) as S2
    by (by rewrite H2, split_prepend, Helo).
  split; [by rewrite S1|]. split; [by rewrite S2|]. split.
  - intros c. unfold cell_pair. rewrite S1, S2. simpl.
    rewrite !elem_of_cons, elem_of_nil.
    intros [->|[->|[->|[->|[]]]]]; simpl;
      rewrite ?Nla, ?Nlo, ?Nela, ?Nelo; by eexists.
  - unfold to_row, load_row, cell_pair. rewrite S1, S2. simpl.
    rewrite Nla, Nlo, Nela, Nelo, Xla, Xlo, Xela, Xelo. simpl.
    destruct row. simpl in *. by subst.
Qed.

(** X22. A file of at least one row, each row with two coordinate strings
    made of two convertible numbers around one separator, loads without
    exception into the table of the corresponding rows: the coordinates
    are the converted pieces and the other columns are copied. *)
Theorem load_well_formed (csv : list RawRow) (rs : list (@Row coord)) :
  csv ≠ [] → Forall2 (well_formed to_numeric) csv rs →
  ∃ t, load numeric_text to_numeric csv = inr t ∧
       loaded_df t = Some {| rows := rs; route := None |}.
Proof.
  intros Hne Hwf.
  assert (∀ r, r ∈ csv → ∃ row, well_formed to_numeric r row) as Hall.
  { intros r [i Hi]%list_elem_of_lookup_1.
    destruct (Forall2_lookup_l _ _ _ _ _ Hwf Hi) as (row & _ & Hrow). by exists row. }
  exists (load_row to_numeric <$> csv). split.
  - apply load_ok.
    + apply max_list_constant; [by destruct csv|].
      intros m (s & -> & (r & -> & Hr)%list_elem_of_fmap)%list_elem_of_fmap.
      destruct (Hall r Hr) as [row Hrow]. by apply well_formed_row in Hrow as (? & _).
    + apply max_list_constant; [by destruct csv|].
      intros m (s & -> & (r & -> & Hr)%list_elem_of_fmap)%list_elem_of_fmap.
      destruct (Hall r Hr) as [row Hrow].
      by apply well_formed_row in Hrow as (_ & ? & _).
    + intros r Hr. destruct (Hall r Hr) as [row Hrow].
      by apply well_formed_row in Hrow as (_ & _ & ? & _).
  - unfold loaded_df. rewrite (mapM_Some_2 _ _ rs); [done|].
    apply Forall2_fmap_l. eapply Forall2_impl; [exact Hwf|].
    intros r row Hrow. simpl. by apply well_formed_row in Hrow as (_ & _ & _ & ?).
Qed.

(** X23. A coordinate string of a single piece does not stop a load that
    succeeds: its row is loaded with an empty longitude cell, and the
    loaded table then has a missing coordinate. *)
Theorem load_short_row (csv : list RawRow) (t : list LoadedRow) r a :
  load numeric_text to_numeric csv = inr t → r ∈ csv →
  split (Geocoded_City1 r) = [a] →
  load_row to_numeric r ∈ t ∧
  loaded_start_lon (load_row to_numeric r) = None ∧
  loaded_df t = None.
Proof.
  intros (_ & _ & ->)%load_inr Hr Hsplit.
  assert (loaded_start_lon (load_row to_numeric r) = None) as Hlon.
  { unfold load_row, cell_pair. by rewrite Hsplit. }
  split; [by apply list_elem_of_fmap_2|]. split; [done|].
  unfold loaded_df. rewrite (mapM_None_2 to_row); [done|].
  apply Exists_exists. exists (load_row to_numeric r).
  split; [by apply list_elem_of_fmap_2|].
  unfold to_row. rewrite Hlon. by destruct (loaded_start_lat _).
Qed.

End LoaderClaims.

(** * The properties on the example tables *)

#[local] Existing Instance float_expr.

(** The specification's scenario: selecting the year 2020 yields one
    aggregated city (Austin, 100 passengers, one flight) and one line. *)
Example scenario_2020 :
  summary_table Z.leb scenario (Some [2020]) None
  = [ {| agg := {| agg_city1 := "Austin"; agg_start_lat := 30; agg_start_lon := -97;
                   agg_passengers := 100; agg_airport_1 := "AUS";
                   agg_end_lat := Some 32; agg_end_lon := Some (-96) |};
         flight_count := Some 1;
         hover_text := "City: Austin<br>Total Flights: 1<br>Passengers: 100<br>Airport: AUS" |} ]
  ∧ ∃ fig, (update_graph Z.leb scenario (Some [2020]) None).2 = inr fig
           ∧ length (line_traces fig) = 1%nat.
Proof. split; [reflexivity|]. eexists. split; reflexivity. Qed.

(** The example tables are what the loader makes of the example files. *)
Example example_tables_loaded :
  (∃ t, load numeric_text_Z to_numeric_Z scenario_csv = inr t ∧
        loaded_table t = scenario) ∧
  (∃ t, load numeric_text_Z to_numeric_Z short_csv = inr t ∧
        loaded_table t = short_table) ∧
  (∃ t, load numeric_text_Z to_numeric_Z missing_origin_csv = inr t ∧
        loaded_table t = missing_origin) ∧
  (∃ t, load numeric_text_Z to_numeric_Z no_origin_csv = inr t ∧
        loaded_table t = no_origin).
Proof. repeat split; eexists; split; reflexivity. Qed.

(** ** Where the code parts from its purpose *)

(** C1. On [short_table], the table loaded from [short_csv], with the
    year 2020 selected: one row passes the filter, the Austin flight
    whose origin string has a single piece; its origin longitude is
    missing, so the group-by of line 77 drops it, the summary is empty,
    Austin has no colour and the colour lookup of line 137 raises
    [KeyError]: the call returns no figure, so no line trace for the
    filtered row. *)
Theorem line_trace_of_dropped_city_raises :
  (∃ t, load numeric_text_Z to_numeric_Z short_csv = inr t ∧
        loaded_table t = short_table) ∧
  length (df_year (Some [2020]) None short_table) = 1%nat ∧
  summary_table Z.leb short_table (Some [2020]) None = [] ∧
  color_dict Z.leb short_table (Some [2020]) None !! "Austin" = None ∧
  (update_graph Z.leb short_table (Some [2020]) None).2
  = inl (KeyError "Austin").
Proof.
  split; [eexists; split; reflexivity|]. repeat split; reflexivity.
Qed.

(** C3. On [short_table] with nothing selected the two filtered rows
    carry 150 passengers and the summary reports 50: the group-by of
    line 77 drops the row without an origin longitude.  On
    [late_destination] the two filtered rows carry [2^63] passengers and
    the summary reports [-2^63]: the int64 sum wraps. *)
Theorem passengers_of_dropped_rows_lost :
  sum_Z (passengers <$> df_year None None short_table) = 150 ∧
  sum_Z ((λ s, agg_passengers (agg s)) <$> summary_table Z.leb short_table None None)
  = 50 ∧
  (∃ fig, (update_graph Z.leb short_table None None).2 = inr fig ∧
          text <$> marker_traces fig
          = [["City: Austin<br>Total Flights: 2<br>Passengers: 50<br>Airport: AUS"]]) ∧
  sum_Z (passengers <$> df_year None None late_destination) = 2 ^ 63 ∧
  sum_Z ((λ s, agg_passengers (agg s))
         <$> summary_table Z.leb late_destination None None)
  = - 2 ^ 63.
Proof.
  split; [reflexivity|]. split; [reflexivity|].
  split; [eexists; split; reflexivity|]. split; reflexivity.
Qed.

(** C5. On [both_directions] with the year 2020 selected, the code's
    table has three counts, two of them for the one route key
    Austin-Dallas and one for a route of a year that is not selected;
    grouping the filtered rows by route key gives the single count 2. *)
Theorem route_counts_not_filtered_per_route :
  ∃ rcs, route_counts Z.leb (assign_route both_directions) = inr rcs ∧
    (λ rc, (rc_route rc, rc_flight_count rc)) <$> rcs
    = [(("Austin", "Dallas"), 1); (("Austin", "Dallas"), 1);
       (("Austin", "Houston"), 1)] ∧
    route_counts_spec (df_year (Some [2020]) None both_directions)
    = [(("Austin", "Dallas"), 2)] ∧
    (λ rc, (rc_route rc, rc_flight_count rc)) <$> rcs
    ≠ route_counts_spec (df_year (Some [2020]) None both_directions).
Proof.
  eexists. split; [reflexivity|]. split; [reflexivity|]. split; [reflexivity|].
  vm_compute. discriminate.
Qed.

(** C6. In [split_routes] the route Austin-Dallas has three flights and the
    route Boston-Chicago two, all of them filtered in when nothing is
    selected; the size column has three entries 1 for Austin-Dallas, one
    per origin airport, and the entry 2 for Boston-Chicago, against three
    points on the map: the route with more flights has the smaller
    sizes. *)
Theorem marker_sizes_not_monotone_in_route_count :
  route_counts_spec (df_year None None split_routes)
  = [(("Austin", "Dallas"), 3); (("Boston", "Chicago"), 2)] ∧
  ∃ fig m, (update_graph Z.leb split_routes None None).2 = inr fig ∧
    marker_traces fig = [m] ∧
    zip (rc_route <$> assigned_route_counts Z.leb split_routes) (marker_size m)
    = [(("Austin", "Dallas"), 1); (("Austin", "Dallas"), 1);
       (("Austin", "Dallas"), 1); (("Boston", "Chicago"), 2)] ∧
    length (lon m) = 3%nat ∧
    ¬ monotone_in_route_count (df_year None None split_routes)
        (assigned_route_counts Z.leb split_routes) (marker_size m).
Proof.
  split; [reflexivity|]. eexists _, _. split; [reflexivity|].
  split; [reflexivity|]. split; [reflexivity|]. split; [reflexivity|].
  intros H.
  specialize (H ("Boston", "Chicago") ("Austin", "Dallas") 2 3 3%nat 0%nat 2 1).
  assert (2 ≤ 1) as Hle; [|lia].
  apply H; try reflexivity; try lia.
  - vm_compute. right. left.
  - vm_compute. left.
Qed.

(** C8. On [no_origin], the table loaded from [no_origin_csv], the one
    row misses its origin longitude, so the group-by of line 64 drops it
    and [route_counts] is empty; with the year 1999 selected no row
    passes the filter, and the call raises the [ValueError] of [max]
    instead of returning an empty map. *)
Theorem no_match_raises_without_origin :
  (∃ t, load numeric_text_Z to_numeric_Z no_origin_csv = inr t ∧
        loaded_table t = no_origin) ∧
  df_year (Some [1999]) None no_origin = [] ∧
  assigned_route_counts Z.leb no_origin = [] ∧
  (update_graph Z.leb no_origin (Some [1999]) None).2
  = inl (ValueError "max() arg is an empty sequence").
Proof.
  split; [eexists; split; reflexivity|]. repeat split; reflexivity.
Qed.

(** C9. Austin is recorded with two origin coordinates in
    [two_coordinates], and the summary has two rows for it; on
    [short_table] with the year 2020 selected Austin is the origin city
    of the filtered row, and the summary has no row for it. *)
Theorem two_coordinates_two_summary_rows :
  length (filter (λ s, summary_city s = "Austin")
            (summary_table Z.leb two_coordinates None None)) = 2%nat ∧
  ¬ one_row_per_city (df_year None None two_coordinates)
      (summary_table Z.leb two_coordinates None None) ∧
  "Austin" ∈ city1 <$> df_year (Some [2020]) None short_table ∧
  summary_table Z.leb short_table (Some [2020]) None = [] ∧
  ¬ one_row_per_city (df_year (Some [2020]) None short_table)
      (summary_table Z.leb short_table (Some [2020]) None).
Proof.
  split; [reflexivity|]. split.
  { intros H. specialize (H "Austin"). discriminate H. vm_compute. left. }
  split; [vm_compute; left|]. split; [reflexivity|].
  intros H. specialize (H "Austin"). discriminate H. vm_compute. left.
Qed.

(** C10. In [two_groups] the three rows have the origin city Austin,
    the first Austin row flies from AUS to Dallas, and the three carry
    157 passengers; the second summary row of Austin reports the airport
    EDC, the destination of the second row and 57 passengers, those of
    the rows recorded with the second origin coordinates. *)
Theorem first_wins_not_per_city :
  city1 <$> df_year None None two_groups = ["Austin"; "Austin"; "Austin"] ∧
  summary_table Z.leb two_groups None None !! 1%nat = Some austin_edc_group ∧
  ¬ first_wins_per_city (df_year None None two_groups)
      (summary_table Z.leb two_groups None None).
Proof.
  split; [reflexivity|]. split; [reflexivity|].
  intros H. destruct (H austin_edc_group) as (r & rest & Hf & Ha & _).
  { vm_compute. right. left. }
  vm_compute in Hf. injection Hf as <- <-. discriminate Ha.
Qed.

(** ** Where the specification's wording and the code part *)

(** The freshly loaded [scenario] has no [route] column; after one call it
    has one. *)
Lemma update_graph_adds_route_column :
  route scenario = None ∧
  route (update_graph Z.leb scenario (Some [2020]) None).1
  = Some [("Austin", "Dallas"); ("Austin", "Houston")] ∧
  (update_graph Z.leb scenario (Some [2020]) None).1 ≠ scenario.
Proof.
  split; [reflexivity|]. split; [reflexivity|].
  intros H. apply (f_equal route) in H. discriminate H.
Qed.

(** ** The properties applied to the example tables *)

Lemma Z_leb_total (a b : Z) : Z.leb a b = true ∨ Z.leb b a = true.
Proof. destruct (Z.le_ge_cases a b); [left|right]; by apply Z.leb_le. Defined.

Lemma Z_leb_trans (a b c : Z) :
  Z.leb a b = true → Z.leb b c = true → Z.leb a c = true.
Proof. rewrite !Z.leb_le. apply Z.le_trans. Defined.

Lemma Z_leb_antisym (a b : Z) : Z.leb a b = true → Z.leb b a = true → a = b.
Proof. rewrite !Z.leb_le. apply Z.le_antisymm. Defined.

Lemma empty_selection_selects_all_witness :
  update_graph Z.leb scenario None (Some ["Austin"])
  = update_graph Z.leb scenario (Some [2021; 2020]) (Some ["Austin"]) ∧
  update_graph Z.leb scenario (Some [2020]) (Some [])
  = update_graph Z.leb scenario (Some [2020]) (Some ["Austin"]).
Proof.
  destruct (empty_selection_selects_all Z.leb scenario [2021; 2020] ["Austin"]
              (Some [2020]) (Some ["Austin"])) as [Hy Hc].
  - intros y. cbn. rewrite !elem_of_cons, !elem_of_nil. tauto.
  - intros c. cbn. rewrite !elem_of_cons, !elem_of_nil. tauto.
  - split.
    + apply (Hy None). by left.
    + apply (Hc (Some [])). by right.
Defined.

Lemma city_color_consistent_witness :
  drawable split_routes None None ∧
  ∃ fig m, (update_graph Z.leb split_routes None None).2 = inr fig ∧
    marker_traces fig = [m] ∧
    unique_cities (summary_table Z.leb split_routes None None)
    = ["Austin"; "Boston"; "Dallas"] ∧
    marker_color m = ["#636EFA"; "#EF553B"; "#00CC96"] ∧
    line_color <$> line_traces fig
    = ["#636EFA"; "#00CC96"; "#636EFA"; "#EF553B"; "#EF553B"] ∧
    Forall2 (λ r t, color_dict Z.leb split_routes None None !! city1 r
                    = Some (line_color t))
      (df_year None None split_routes) (line_traces fig).
Proof.
  assert (drawable split_routes None None) as Hd
    by (apply (bool_decide_unpack _); vm_compute; exact I).
  split; [exact Hd|].
  destruct (city_color_consistent (F:=FloatExpr) Z.leb split_routes None None)
    as (_ & _ & _ & Hfigs & Hret).
  destruct (Hret Hd) as [fig Hfig].
  destruct (Hfigs fig Hfig) as (m & Hm & _ & Hline).
  exists fig, m. split; [exact Hfig|]. split; [exact Hm|].
  split; [reflexivity|].
  vm_compute in Hfig. injection Hfig as <-.
  vm_compute in Hm. injection Hm as <-.
  split; [reflexivity|]. split; [reflexivity|]. exact Hline.
Defined.

Lemma marker_size_per_route_count_row_witness :
  drawable split_routes (Some [2020]) None ∧
  ∃ fig m, (update_graph Z.leb split_routes (Some [2020]) None).2 = inr fig ∧
    marker_traces fig = [m] ∧
    marker_size m = [1; 1; 1; 2] ∧
    marker_sizeref m = sizeref_of 2 ∧
    ∃ sa sb, marker_size m !! 0%nat = Some sa ∧ marker_size m !! 3%nat = Some sb ∧
             sa < sb.
Proof.
  assert (drawable split_routes (Some [2020]) None) as Hd
    by (apply (bool_decide_unpack _); vm_compute; exact I).
  split; [exact Hd|].
  destruct (marker_size_per_route_count_row Z.leb split_routes (Some [2020]) None Hd)
    as (fig & m & M & Hfig & Hm & Hsize & _ & _ & HM & Hle & Href & Hmono).
  exists fig, m. split; [exact Hfig|]. split; [exact Hm|].
  assert (marker_size m = [1; 1; 1; 2]) as Hs by (rewrite Hsize; reflexivity).
  split; [exact Hs|]. split.
  - rewrite Href. f_equal. rewrite Hs in HM, Hle.
    assert (1 ≤ 2 ≤ M) by (apply Hle; rewrite !elem_of_cons; tauto).
    rewrite !elem_of_cons, elem_of_nil in HM. lia.
  - eapply (Hmono 0%nat 3%nat); [reflexivity|reflexivity|]. simpl. lia.
Defined.

Lemma route_key_unordered_witness :
  route_of (flight 2020 "Dallas" "Austin" "DFW" 80 32 (-96) 30 (-97))
  = route_of (flight 2020 "Austin" "Dallas" "AUS" 100 30 (-97) 32 (-96)).
Proof.
  apply (route_key_unordered
           (flight 2020 "Austin" "Dallas" "AUS" 100 30 (-97) 32 (-96))
           (flight 2020 "Dallas" "Austin" "DFW" 80 32 (-96) 30 (-97)));
    reflexivity.
Defined.

Lemma selection_order_irrelevant_witness :
  update_graph Z.leb scenario (Some [2020; 2021]) (Some ["Austin"])
  = update_graph Z.leb scenario (Some [2021; 2020; 2020]) (Some ["Austin"; "Austin"]).
Proof.
  apply (selection_order_irrelevant Z.leb scenario).
  - intros y. rewrite !elem_of_cons, !elem_of_nil. tauto.
  - intros c. rewrite !elem_of_cons, !elem_of_nil. tauto.
Defined.

Lemma flight_count_is_city_total_witness :
  austin_second_group ∈ summary_table Z.leb two_coordinates None None ∧
  flight_count austin_second_group = Some 2.
Proof.
  assert (austin_second_group ∈ summary_table Z.leb two_coordinates None None) as Hin.
  { vm_compute. right. left. }
  split; [exact Hin|].
  destruct (flight_count_is_city_total Z.leb two_coordinates None None
              austin_second_group Hin) as (Hc & _ & _).
  exact Hc.
Defined.

Lemma marker_points_are_summary_rows_witness :
  drawable short_table None None ∧
  ∃ fig m ls, (update_graph Z.leb short_table None None).2 = inr fig ∧
    data fig = Markers m :: (Lines <$> ls) ∧
    length ls = 2%nat ∧
    line_lon <$> ls = [[None; Some (-96); None]; [Some (-97); Some (-95); None]] ∧
    lon m = [-97] ∧ lat m = [30].
Proof.
  assert (drawable short_table None None) as Hd
    by (apply (bool_decide_unpack _); vm_compute; exact I).
  split; [exact Hd|].
  destruct (marker_points_are_summary_rows Z.leb short_table None None Hd)
    as (fig & m & ls & Hfig & Hdata & _ & Hlen & Hlines & Hlon & Hlat & _).
  exists fig, m, ls. split; [exact Hfig|]. split; [exact Hdata|].
  split; [exact Hlen|]. split; [|split; [exact Hlon|exact Hlat]].
  apply list_eq_Forall2, Forall2_fmap_l.
  change (df_year None None short_table) with (rows short_table) in Hlines.
  inversion Hlines as [|r t rs ts (H1 & _) Hrest]; subst.
  inversion Hrest as [|r' t' rs' ts' (H2 & _) Hnil]; subst.
  inversion Hnil; subst. repeat constructor; assumption.
Defined.

Lemma marker_sizes_ignore_selection_witness :
  drawable both_directions None None ∧
  drawable both_directions (Some [2021]) (Some ["Austin"]) ∧
  ∃ fig fig' m m',
    (update_graph Z.leb both_directions None None).2 = inr fig ∧
    (update_graph Z.leb both_directions (Some [2021]) (Some ["Austin"])).2
    = inr fig' ∧
    marker_traces fig = [m] ∧ marker_traces fig' = [m'] ∧
    marker_size m = marker_size m' ∧ marker_sizeref m = marker_sizeref m'.
Proof.
  assert (drawable both_directions None None) as Hd
    by (apply (bool_decide_unpack _); vm_compute; exact I).
  assert (drawable both_directions (Some [2021]) (Some ["Austin"])) as Hd'
    by (apply (bool_decide_unpack _); vm_compute; exact I).
  split; [exact Hd|]. split; [exact Hd'|].
  destruct (marker_sizes_ignore_selection Z.leb both_directions None None
              (Some [2021]) (Some ["Austin"]) Hd Hd')
    as (fig & fig' & m & m' & H1 & H2 & H3 & H4 & H5 & H6 & _).
  by exists fig, fig', m, m'.
Defined.

Lemma passenger_sum_of_groups_witness :
  sum_Z ((λ s, agg_passengers (agg s)) <$> summary_table Z.leb split_routes None None)
  = sum_Z (passengers <$> df_year None None split_routes) ∧
  sum_Z (passengers <$> df_year None None split_routes) = 325.
Proof.
  split; [|reflexivity].
  apply (passenger_sum_of_groups Z.leb split_routes None None).
  - apply Forall_forall. apply (bool_decide_unpack _). vm_compute. exact I.
  - apply Forall_forall. apply (bool_decide_unpack _). vm_compute. exact I.
Defined.

Lemma color_cycle_witness :
  unique_cities (summary_table Z.leb twelve_cities None None) !! 0%nat = Some "A" ∧
  unique_cities (summary_table Z.leb twelve_cities None None) !! 10%nat = Some "K" ∧
  color_dict Z.leb twelve_cities None None !! "A"
  = color_dict Z.leb twelve_cities None None !! "K".
Proof.
  split; [reflexivity|]. split; [reflexivity|].
  apply (color_cycle Z.leb twelve_cities None None 0 10 "A" "K");
    reflexivity.
Defined.

Lemma color_dict_keys_witness :
  getitem (color_dict Z.leb short_table (Some [2020]) None) "Austin"
  = inl (KeyError "Austin") ∧
  is_Some (color_dict Z.leb short_table None None !! "Austin").
Proof.
  split.
  - apply (color_dict_keys Z.leb short_table (Some [2020]) None "Austin").
    intros Hex. apply Exists_exists in Hex. revert Hex.
    apply (bool_decide_unpack _). vm_compute. exact I.
  - apply (color_dict_keys Z.leb short_table None None "Austin").
    apply Exists_exists. apply (bool_decide_unpack _). vm_compute. exact I.
Defined.

Lemma update_graph_outcome_witness :
  (∃ fig, (update_graph Z.leb short_table None None).2 = inr fig) ∧
  (update_graph Z.leb no_origin None None).2
  = inl (ValueError "max() arg is an empty sequence") ∧
  ¬ drawable short_table (Some [2020]) None.
Proof.
  split; [|split].
  - apply (update_graph_outcome Z.leb short_table None None).
    apply (bool_decide_unpack _). vm_compute. exact I.
  - apply (update_graph_outcome Z.leb no_origin None None).
    apply Forall_forall. apply (bool_decide_unpack _). vm_compute. exact I.
  - intros Hd.
    apply (update_graph_outcome Z.leb short_table (Some [2020]) None) in Hd
      as [fig Hfig].
    discriminate Hfig.
Defined.

Lemma summary_sorted_witness :
  StronglySorted (λ c c', String.ltb c c' = true)
    (unique_cities (summary_table Z.leb both_directions None None)).
Proof.
  apply (summary_sorted Z.leb Z_leb_total Z_leb_trans Z_leb_antisym
           both_directions None None).
Defined.

Lemma colors_depend_on_city_set_witness :
  color_dict Z.leb short_table None None
  = color_dict Z.leb two_coordinates None (Some ["Austin"]).
Proof.
  apply (colors_depend_on_city_set Z.leb Z_leb_total Z_leb_trans Z_leb_antisym).
  intros c. split; intros (r & Hr & <- & Ho).
  - assert (city1 r = "Austin") as ->.
    { revert r Hr Ho.
      apply (proj1 (Forall_forall (λ r, has_origin r → city1 r = "Austin") _)).
      apply (bool_decide_unpack _). vm_compute. exact I. }
    apply Exists_exists. apply (bool_decide_unpack _). vm_compute. exact I.
  - assert (city1 r = "Austin") as ->.
    { revert r Hr Ho.
      apply (proj1 (Forall_forall (λ r, has_origin r → city1 r = "Austin") _)).
      apply (bool_decide_unpack _). vm_compute. exact I. }
    apply Exists_exists. apply (bool_decide_unpack _). vm_compute. exact I.
Defined.

Lemma no_match_gives_empty_map_witness :
  (∃ r, r ∈ rows short_table ∧ has_origin r) ∧
  df_year (Some [1999]) None short_table = [] ∧
  ∃ fig m, (update_graph Z.leb short_table (Some [1999]) None).2 = inr fig ∧
    data fig = [Markers m] ∧ lon m = [] ∧ marker_size m = [1].
Proof.
  assert (∃ r, r ∈ rows short_table ∧ has_origin r) as Ho.
  { apply Exists_exists. apply (bool_decide_unpack _). vm_compute. exact I. }
  split; [exact Ho|]. split; [reflexivity|].
  destruct (no_match_gives_empty_map Z.leb short_table (Some [1999]) None Ho
              eq_refl)
    as (fig & m & Hfig & Hdata & Hlon & _ & _ & _ & _ & Hsize & _).
  exists fig, m. split; [exact Hfig|]. split; [exact Hdata|].
  split; [exact Hlon|]. rewrite Hsize. reflexivity.
Defined.

Lemma summary_one_row_per_city_key_witness :
  length (filter (λ s, summary_city s = "Austin")
            (summary_table Z.leb short_table None None)) = 1%nat.
Proof.
  destruct (summary_one_row_per_city_key Z.leb short_table None None)
    as (_ & _ & _ & Hone).
  apply (Hone "Austin" ("Austin", 30, -97)).
  - apply Exists_exists. apply (bool_decide_unpack _). vm_compute. exact I.
  - apply (proj1 (Forall_forall
                    (λ r, city1 r = "Austin" → has_origin r →
                          city_key r = Some ("Austin", 30, -97)) _)).
    apply (bool_decide_unpack _). vm_compute. exact I.
Defined.

Lemma first_wins_per_group_witness :
  austin_edc_group ∈ summary_table Z.leb two_groups None None ∧
  ∃ r rest,
    filter (λ r, city_key r = Some (agg_key (agg austin_edc_group)))
           (df_year None None two_groups) = r :: rest ∧
    length rest = 1%nat ∧
    agg_airport_1 (agg austin_edc_group) = airport_1 r ∧
    agg_end_lat (agg austin_edc_group) = end_lat r ∧
    agg_passengers (agg austin_edc_group) = int64_sum (passengers <$> r :: rest).
Proof.
  assert (austin_edc_group ∈ summary_table Z.leb two_groups None None) as Hin.
  { vm_compute. right. left. }
  split; [exact Hin|].
  destruct (first_wins_per_group Z.leb two_groups None None austin_edc_group Hin)
    as (r & rest & Hf & Ha & _ & _ & Hp & Hla & _).
  exists r, rest. split; [exact Hf|].
  vm_compute in Hf. injection Hf as <- <-.
  split; [reflexivity|]. split; [exact Ha|]. split; [|exact Hp].
  apply Hla. by eexists.
Defined.

Lemma load_needs_two_columns_witness :
  load numeric_text_Z to_numeric_Z numbers_csv
  = inl (AttributeError "Can only use .str accessor with string values!") ∧
  load numeric_text_Z to_numeric_Z
    [mkRawRow 2020 "Austin" "Dallas" "AUS" 100 "30 N" "32, -96"]
  = inl (ValueError "Columns must be same length as key") ∧
  load numeric_text_Z to_numeric_Z
    [mkRawRow 2020 "Austin" "Dallas" "AUS" 100 "30, -97" "32, -96, 5"]
  = inl (ValueError "Columns must be same length as key").
Proof.
  split; [|split].
  - destruct (load_needs_two_columns numeric_text_Z to_numeric_Z numbers_csv)
      as (_ & Hattr & _).
    apply Hattr. apply (bool_decide_unpack _). vm_compute. exact I.
  - destruct (load_needs_two_columns numeric_text_Z to_numeric_Z
                [mkRawRow 2020 "Austin" "Dallas" "AUS" 100 "30 N" "32, -96"])
      as (_ & _ & Hwidth & _).
    apply Hwidth.
    + apply (bool_decide_unpack _). vm_compute. exact I.
    + vm_compute. lia.
  - destruct (load_needs_two_columns numeric_text_Z to_numeric_Z
                [mkRawRow 2020 "Austin" "Dallas" "AUS" 100 "30, -97" "32, -96, 5"])
      as (_ & _ & _ & _ & Hsecond).
    apply Hsecond.
    + reflexivity.
    + apply (bool_decide_unpack _). vm_compute. exact I.
    + vm_compute. lia.
Defined.

Lemma load_success_witness :
  ∃ t, load numeric_text_Z to_numeric_Z scenario_csv = inr t ∧
       raw <$> t = scenario_csv ∧ loaded_df t = Some scenario.
Proof.
  eexists. split; [reflexivity|]. split; [|reflexivity].
  apply (load_success numeric_text_Z to_numeric_Z scenario_csv). reflexivity.
Defined.

Lemma load_well_formed_witness :
  ∃ t, load numeric_text_Z to_numeric_Z scenario_csv = inr t ∧
       loaded_df t = Some scenario.
Proof.
  apply (load_well_formed numeric_text_Z to_numeric_Z scenario_csv (rows scenario));
    [done|].
  repeat constructor.
  - exists "30", "-97", "32", "-96". repeat split; by eexists.
  - exists "30", "-97", "29", "-95". repeat split; by eexists.
Defined.

Lemma load_short_row_witness :
  ∃ t, load numeric_text_Z to_numeric_Z short_csv = inr t ∧ loaded_df t = None ∧
       loaded_table t = short_table.
Proof.
  eexists. split; [reflexivity|]. split; [|reflexivity].
  apply (load_short_row numeric_text_Z to_numeric_Z short_csv _
           (mkRawRow 2020 "Austin" "Dallas" "AUS" 100 "30" "32, -96") "30");
    [reflexivity|left|reflexivity].
Defined.
